(** * js-debug-companion-cli: a shallow embedding and its properties

  Embedded sources:
  - [src/vscode.ts], which holds two versions of the cancellation and
    event shims (module [First]: the flag-and-array version; module
    [Second]: the version built on [MutableToken]);
  - [src/spawn.ts]: [BrowserSpawner] (module [Spawn]);
  - [src/cli.ts]: the launch parameters and the [/kill] route (modules
    [Spawn] and [Cli]);
  - the session registry, whose file is not part of the sources at hand
    and is modelled from the specification (module [Registry]).

  A callback is modelled by its identity: a listener is a name, and
  invoking it appends a call to the trace returned by the operation.
  The body of a listener given to a cancellation token may dispose
  registrations made on that token while it runs, the listener's own
  included; [Bodies] says which.  Listeners do nothing else to the object
  that calls them and do not throw, and listeners given to an
  [EventEmitter] directly leave it alone. *)

From stdpp Require Import base option list strings pretty gmap.

Local Open Scope string_scope.
Local Open Scope list_scope.

(** ** JavaScript values that the modelled code reads or passes *)

Module Js.

Inductive Value :=
| Undefined
| Bool (b : bool).

#[global] Instance Value_eq_dec : EqDecision Value.
Proof. solve_decision. Defined.

(** ToBoolean on the values above. *)
Definition truthy (v : Value) : bool :=
  match v with
  | Undefined => false
  | Bool b => b
  end.

(** String.prototype.startsWith *)
Definition startsWith (pre s : string) : bool := String.prefix pre s.

(** String.prototype.slice(n) for [0 <= n]. *)
Definition slice (n : nat) (s : string) : string :=
  String.substring n (String.length s - n) s.

(** Array.prototype.includes on an array of strings. *)
Definition includes (x : string) (l : list string) : bool :=
  bool_decide (x ∈ l).

(** Array.prototype.find *)
Definition find {A} (f : A -> bool) (l : list A) : option A := List.find f l.

End Js.

(** A listener is a function object; the code only ever compares listeners
  by identity and calls them. *)
Definition Listener : Type := nat.

(** What the body of each listener does to the token it is registered on:
  the listeners whose registration it disposes while it runs, in order,
  each through a Disposable that [onCancellationRequested] returned for
  that listener.  A listener that disposes its own registration names
  itself. *)
Definition Bodies : Type := Listener -> list Listener.

(** Listeners that dispose nothing. *)
Definition inert : Bodies := fun _ => [].

(** ** Node's [events.EventEmitter]

  The part of Node's emitter that vscode.ts uses, after Node's
  documentation: [on] appends to the listener array of the event name,
  [removeListener] removes at most one instance, the most recently
  added one, [emit] calls a copy of the array in registration order,
  [removeAllListeners] empties it. *)

Module NodeEventEmitter.

Abbreviation t := (gmap string (list Listener)).

Definition create : t := ∅.

Definition listeners (name : string) (e : t) : list Listener :=
  default [] (e !! name).

Definition on (name : string) (l : Listener) (e : t) : t :=
  <[name := listeners name e ++ [l]]> e.

(** Removes the last occurrence of [l]. *)
Fixpoint remove_last (l : Listener) (ls : list Listener) : list Listener :=
  match ls with
  | [] => []
  | x :: rest =>
      if bool_decide (l ∈ rest) then x :: remove_last l rest
      else if bool_decide (x = l) then rest
      else x :: rest
  end.

Definition removeListener (name : string) (l : Listener) (e : t) : t :=
  match e !! name with
  | None => e
  | Some ls => <[name := remove_last l ls]> e
  end.

(** [emit name data]: the calls made, each listener with [data]. *)
Definition emit {T} (name : string) (data : T) (e : t) : list (Listener * T) :=
  (fun l => (l, data)) <$> listeners name e.

Definition removeAllListeners (name : string) (e : t) : t :=
  delete name e.

End NodeEventEmitter.

(** ** vscode.ts, first version (lines 12-81) *)

Module First.

Module CancellationTokenSource.

Record t := {
  _cancelled : bool;
  _listeners : list Listener;
}.

Definition create : t := {| _cancelled := false; _listeners := [] |}.

(** The object that [this] denotes where [this._cancelled] is read.  The
    token is an object literal whose own properties are the accessor
    [isCancellationRequested] and the arrow function
    [onCancellationRequested]; it has no [_cancelled] property. *)
Inductive This :=
| ThisSource (s : t)
| ThisTokenLiteral.

Definition get__cancelled (this : This) : Js.Value :=
  match this with
  | ThisSource s => Js.Bool (_cancelled s)
  | ThisTokenLiteral => Js.Undefined
  end.

(** [token.isCancellationRequested] (lines 17-19): an accessor written with
    method syntax, so [this] is the object the property is read from, the
    token literal. *)
Definition isCancellationRequested (s : t) : Js.Value :=
  get__cancelled ThisTokenLiteral.

(** Array.prototype.indexOf followed by splice(index, 1): the first
    occurrence goes. *)
Fixpoint remove_first (l : Listener) (ls : list Listener) : list Listener :=
  match ls with
  | [] => []
  | x :: rest => if bool_decide (x = l) then rest else x :: remove_first l rest
  end.

(** The [dispose] of the Disposable returned for [listener] (lines 31-36). *)
Definition dispose_registration (listener : Listener) (s : t) : t :=
  {| _cancelled := _cancelled s;
     _listeners := remove_first listener (_listeners s) |}.

Section Listeners.

Variable bodies : Bodies.

(** A call [listener()], as the array sees it: the body runs, and every
    Disposable that it disposes splices the array there and then. *)
Definition call (listener : Listener) (ls : list Listener) : list Listener :=
  foldl (fun a l => remove_first l a) ls (bodies listener).

(** [token.onCancellationRequested(listener)] (lines 21-29): an arrow
    function, so [this] is the source.  Returns the new state and the calls
    made; the Disposable it returns is [dispose_registration listener]. *)
Definition onCancellationRequested (listener : Listener) (s : t)
  : t * list Listener :=
  if Js.truthy (get__cancelled (ThisSource s)) then
    ({| _cancelled := _cancelled s;
        _listeners := call listener (_listeners s) |}, [listener])
  else ({| _cancelled := _cancelled s;
           _listeners := _listeners s ++ [listener] |}, []).

(** The loop of lines 45-47, [for (const listener of this._listeners)
    listener()].  The iterator of an array keeps an index into the array
    itself: each step reads the element at the index, if there is one,
    calls it and moves the index on by one, so that a listener that
    splices the array shifts the elements not yet visited.  [steps] bounds
    the number of iterations; the array does not grow while the loop runs,
    and its length is bound enough ([for_of_steps]).  Returns the
    listeners called and the array as the loop leaves it. *)
Fixpoint for_of (steps index : nat) (ls : list Listener)
  : list Listener * list Listener :=
  match steps with
  | 0 => ([], ls)
  | S steps =>
      match ls !! index with
      | None => ([], ls)
      | Some listener =>
          let '(calls, ls') := for_of steps (S index) (call listener ls) in
          (listener :: calls, ls')
      end
  end.

(** [cancel()] (lines 41-51). *)
Definition cancel (s : t) : t * list Listener :=
  if negb (_cancelled s) then
    ({| _cancelled := true; _listeners := [] |},
     fst (for_of (length (_listeners s)) 0 (_listeners s)))
  else (s, []).

End Listeners.

(** [dispose()] (lines 53-55). *)
Definition dispose (s : t) : t :=
  {| _cancelled := _cancelled s; _listeners := [] |}.

End CancellationTokenSource.

Module EventEmitter.

Record t := {
  _emitter : NodeEventEmitter.t;
  _eventName : string;
}.

(** [new EventEmitter()] given the value of the static [_counter]; returns
    the emitter and the incremented counter (lines 61-63). *)
Definition create (_counter : nat) : t * nat :=
  ({| _emitter := NodeEventEmitter.create;
      _eventName := "event_" +:+ pretty _counter |}, S _counter).

(** [emitter.event(listener)] (lines 65-72). *)
Definition event (listener : Listener) (e : t) : t :=
  {| _emitter := NodeEventEmitter.on (_eventName e) listener (_emitter e);
     _eventName := _eventName e |}.

Definition dispose_registration (listener : Listener) (e : t) : t :=
  {| _emitter := NodeEventEmitter.removeListener (_eventName e) listener (_emitter e);
     _eventName := _eventName e |}.

(** [fire(data)] (lines 74-76): the calls made. *)
Definition fire {T} (data : T) (e : t) : list (Listener * T) :=
  NodeEventEmitter.emit (_eventName e) data (_emitter e).

(** [dispose()] (lines 78-80). *)
Definition dispose (e : t) : t :=
  {| _emitter := NodeEventEmitter.removeAllListeners (_eventName e) (_emitter e);
     _eventName := _eventName e |}.

End EventEmitter.

End First.

(** ** vscode.ts, second version (lines 90-161) *)

Module Second.

Module EventEmitter.

Record t := { _emitter : NodeEventEmitter.t }.

Definition create : t := {| _emitter := NodeEventEmitter.create |}.

(** [emitter.event(listener)] (lines 93-100). *)
Definition event (listener : Listener) (e : t) : t :=
  {| _emitter := NodeEventEmitter.on "event" listener (_emitter e) |}.

Definition dispose_registration (listener : Listener) (e : t) : t :=
  {| _emitter := NodeEventEmitter.removeListener "event" listener (_emitter e) |}.

(** [fire(data)] (lines 102-104). *)
Definition fire {T} (data : T) (e : t) : list (Listener * T) :=
  NodeEventEmitter.emit "event" data (_emitter e).

Definition listeners (e : t) : list Listener :=
  NodeEventEmitter.listeners "event" (_emitter e).

End EventEmitter.

Module MutableToken.

Record t := {
  _isCancelled : bool;
  _emitter : option EventEmitter.t;
}.

Definition create : t := {| _isCancelled := false; _emitter := None |}.

(** [get isCancellationRequested] (lines 125-127). *)
Definition isCancellationRequested (k : t) : Js.Value :=
  Js.Bool (_isCancelled k).

(** [get onCancellationRequested] (lines 129-134): makes the emitter on
    first use and returns its [event] function. *)
Definition get_onCancellationRequested (k : t) : t * EventEmitter.t :=
  match _emitter k with
  | Some e => (k, e)
  | None =>
      let e := EventEmitter.create in
      ({| _isCancelled := _isCancelled k; _emitter := Some e |}, e)
  end.

(** [token.onCancellationRequested(listener)]: the getter, then a call of
    the [event] function it returned.  No listener is called. *)
Definition onCancellationRequested (listener : Listener) (k : t) : t :=
  let '(k', e) := get_onCancellationRequested k in
  {| _isCancelled := _isCancelled k';
     _emitter := Some (EventEmitter.event listener e) |}.

(** The [dispose] of the Disposable returned for [listener]; it exists
    only once the emitter does. *)
Definition dispose_registration (listener : Listener) (k : t) : t :=
  {| _isCancelled := _isCancelled k;
     _emitter := EventEmitter.dispose_registration listener <$> _emitter k |}.

Definition listeners (k : t) : list Listener :=
  from_option EventEmitter.listeners [] (_emitter k).

Section Listeners.

Variable bodies : Bodies.

(** The emitter after [fire] has called its listeners.  Node's [emit]
    calls a copy of the listener array, so that every listener that was
    registered when [fire] began is called; the Disposables that their
    bodies dispose take listeners off the emitter itself, one after the
    other. *)
Definition fired (e : EventEmitter.t) : EventEmitter.t :=
  foldl (fun e l => EventEmitter.dispose_registration l e) e
    (EventEmitter.listeners e ≫= bodies).

(** [cancel()] (lines 116-123). *)
Definition cancel (k : t) : t * list (Listener * Js.Value) :=
  if negb (_isCancelled k) then
    ({| _isCancelled := true; _emitter := fired <$> _emitter k |},
     match _emitter k with
     | Some e => EventEmitter.fire Js.Undefined e
     | None => []
     end)
  else (k, []).

End Listeners.

End MutableToken.

Module CancellationTokenSource.

Record t := {
  _token : option MutableToken.t;
  _isCancelled : bool;
}.

Definition create : t := {| _token := None; _isCancelled := false |}.

(** Writes back the token object after a method of it has run: the source
    and its clients share the one token. *)
Definition set_token (k : MutableToken.t) (s : t) : t :=
  {| _token := Some k; _isCancelled := _isCancelled s |}.

(** The Disposable of a registration made through the token. *)
Definition dispose_registration (listener : Listener) (s : t) : t :=
  match _token s with
  | Some k => set_token (MutableToken.dispose_registration listener k) s
  | None => s
  end.

Definition listeners (s : t) : list Listener :=
  from_option MutableToken.listeners [] (_token s).

(** The states a source can be in: its token, once made, carries the
    flag of the source (see [wf_create] and [wf_step]). *)
Definition wf (s : t) : Prop :=
  match _token s with
  | Some k => MutableToken._isCancelled k = _isCancelled s
  | None => True
  end.

Section Listeners.

Variable bodies : Bodies.

(** [get token] (lines 141-149): the state afterwards and the token. *)
Definition token (s : t) : t * MutableToken.t :=
  match _token s with
  | Some k => (s, k)
  | None =>
      let k := MutableToken.create in
      let k := if _isCancelled s then fst (MutableToken.cancel bodies k) else k in
      ({| _token := Some k; _isCancelled := _isCancelled s |}, k)
  end.

(** [cancel()] (lines 151-156). *)
Definition cancel (s : t) : t * list (Listener * Js.Value) :=
  match _token s with
  | Some k =>
      let '(k', calls) := MutableToken.cancel bodies k in
      ({| _token := Some k'; _isCancelled := true |}, calls)
  | None => ({| _token := None; _isCancelled := true |}, [])
  end.

(** [dispose()] (lines 158-160). *)
Definition dispose (s : t) : t * list (Listener * Js.Value) := cancel s.

(** [source.token.isCancellationRequested] *)
Definition isCancellationRequested (s : t) : t * Js.Value :=
  let '(s', k) := token s in (s', MutableToken.isCancellationRequested k).

(** [source.token.onCancellationRequested(listener)] *)
Definition onCancellationRequested (listener : Listener) (s : t) : t :=
  let '(s', k) := token s in
  set_token (MutableToken.onCancellationRequested listener k) s'.

End Listeners.

End CancellationTokenSource.

End Second.

(** ** The cancellation API as a client drives it

    A client holds one source and works through it: it reads
    [source.token], registers a listener on the token, disposes a
    registration, cancels or disposes the source, reads the flag.  What it
    can observe are the listener calls and the values read. *)

Module Api.

Inductive Op :=
| Token                                   (* source.token *)
| OnCancellationRequested (l : Listener)  (* source.token.onCancellationRequested(l) *)
| DisposeRegistration (l : Listener)      (* the Disposable obtained for l: dispose() *)
| Cancel                                  (* source.cancel() *)
| Dispose                                 (* source.dispose() *)
| IsCancellationRequested.                (* source.token.isCancellationRequested *)

Inductive Obs :=
| Called (l : Listener)
| Got (v : Js.Value).

#[global] Instance Obs_eq_dec : EqDecision Obs.
Proof. solve_decision. Defined.

(** The listeners called, in order, among some observations. *)
Definition called (obs : list Obs) : list Listener :=
  omap (fun o => match o with Called l => Some l | Got _ => None end) obs.

Fixpoint run {St} (step : Op -> St -> St * list Obs) (ops : list Op) (s : St)
  : St * list Obs :=
  match ops with
  | [] => (s, [])
  | op :: rest =>
      let '(s1, o1) := step op s in
      let '(s2, o2) := run step rest s1 in
      (s2, o1 ++ o2)
  end.

Section Listeners.

Variable bodies : Bodies.

Definition first_step (op : Op) (s : First.CancellationTokenSource.t)
  : First.CancellationTokenSource.t * list Obs :=
  match op with
  | Token => (s, [])
  | OnCancellationRequested l =>
      let '(s', calls) :=
        First.CancellationTokenSource.onCancellationRequested bodies l s in
      (s', Called <$> calls)
  | DisposeRegistration l =>
      (First.CancellationTokenSource.dispose_registration l s, [])
  | Cancel =>
      let '(s', calls) := First.CancellationTokenSource.cancel bodies s in
      (s', Called <$> calls)
  | Dispose => (First.CancellationTokenSource.dispose s, [])
  | IsCancellationRequested =>
      (s, [Got (First.CancellationTokenSource.isCancellationRequested s)])
  end.

(** The second version passes [undefined] to each listener, the first
    calls it without arguments; a listener sees the same parameter values
    either way, and [Called] keeps the callee only. *)
Definition second_step (op : Op) (s : Second.CancellationTokenSource.t)
  : Second.CancellationTokenSource.t * list Obs :=
  match op with
  | Token => (fst (Second.CancellationTokenSource.token bodies s), [])
  | OnCancellationRequested l =>
      (Second.CancellationTokenSource.onCancellationRequested bodies l s, [])
  | DisposeRegistration l =>
      (Second.CancellationTokenSource.dispose_registration l s, [])
  | Cancel =>
      let '(s', calls) := Second.CancellationTokenSource.cancel bodies s in
      (s', (fun c => Called (fst c)) <$> calls)
  | Dispose =>
      let '(s', calls) := Second.CancellationTokenSource.dispose bodies s in
      (s', (fun c => Called (fst c)) <$> calls)
  | IsCancellationRequested =>
      let '(s', v) :=
        Second.CancellationTokenSource.isCancellationRequested bodies s in
      (s', [Got v])
  end.

Definition first_run := run first_step.
Definition second_run := run second_step.

End Listeners.

(** The listeners that a sequence of operations registers. *)
Fixpoint registered (ops : list Op) : list Listener :=
  match ops with
  | [] => []
  | OnCancellationRequested l :: rest => l :: registered rest
  | _ :: rest => registered rest
  end.


(** Operations on an [EventEmitter]. *)
Inductive EmitterOp (T : Type) :=
| Event (l : Listener)            (* emitter.event(l) *)
| DisposeEvent (l : Listener)     (* the Disposable obtained for l: dispose() *)
| Fire (data : T).                (* emitter.fire(data) *)

Arguments Event {T} l.
Arguments DisposeEvent {T} l.
Arguments Fire {T} data.

Definition first_emitter_step {T} (op : EmitterOp T) (e : First.EventEmitter.t)
  : First.EventEmitter.t * list (Listener * T) :=
  match op with
  | Event l => (First.EventEmitter.event l e, [])
  | DisposeEvent l => (First.EventEmitter.dispose_registration l e, [])
  | Fire d => (e, First.EventEmitter.fire d e)
  end.

Definition second_emitter_step {T} (op : EmitterOp T) (e : Second.EventEmitter.t)
  : Second.EventEmitter.t * list (Listener * T) :=
  match op with
  | Event l => (Second.EventEmitter.event l e, [])
  | DisposeEvent l => (Second.EventEmitter.dispose_registration l e, [])
  | Fire d => (e, Second.EventEmitter.fire d e)
  end.

Fixpoint emitter_run {T St} (step : EmitterOp T -> St -> St * list (Listener * T))
    (ops : list (EmitterOp T)) (s : St) : list (Listener * T) :=
  match ops with
  | [] => []
  | op :: rest =>
      let '(s1, o1) := step op s in o1 ++ emitter_run step rest s1
  end.

(** [source.cancel()] and [source.dispose()]. *)
Definition is_cancelling (op : Op) : bool :=
  match op with
  | Cancel | Dispose => true
  | _ => false
  end.

(** A cancelled source of the first version holds no listener (see
    [first_inv_run]). *)
Definition first_inv (s : First.CancellationTokenSource.t) : Prop :=
  First.CancellationTokenSource._cancelled s = true ->
  First.CancellationTokenSource._listeners s = [].

Definition is_token_read (op : Op) : bool :=
  match op with
  | Token => true
  | _ => false
  end.

(** What a client can tell of a source of the second version: the flag
    and the listeners on the token, in order.  A source without a token,
    or a token without an emitter, has no listeners. *)
Definition second_view (s : Second.CancellationTokenSource.t)
  : bool * list Listener :=
  (Second.CancellationTokenSource._isCancelled s,
   Second.CancellationTokenSource.listeners s).

(** The operations of the second version told on the view alone: the
    first [cancel()] or [dispose()] calls every listener in view, and the
    registrations that their bodies dispose go from the view, the latest
    registration of a listener first. *)
Definition view_step (bodies : Bodies) (op : Op) (v : bool * list Listener)
  : (bool * list Listener) * list Obs :=
  let '(c, ls) := v in
  match op with
  | Token => (v, [])
  | OnCancellationRequested l => ((c, ls ++ [l]), [])
  | DisposeRegistration l => ((c, NodeEventEmitter.remove_last l ls), [])
  | Cancel | Dispose =>
      if c then (v, [])
      else ((true,
             foldl (fun a l => NodeEventEmitter.remove_last l a) ls
               (ls ≫= bodies)),
            Called <$> ls)
  | IsCancellationRequested => (v, [Got (Js.Bool c)])
  end.

End Api.

(** ** spawn.ts: [BrowserSpawner], with the launch parameters of cli.ts *)

Module Spawn.

(** The [type] given to [findBrowserPath] (line 33).  The signature
    declares one of three names, but [launch] passes [params.type] on as
    the request body gave it (cli.ts, line 100: the result of
    [JSON.parse], unchecked), so that any value can arrive.  Lines 38-39
    use it as a property key and in a template literal only, and both
    convert it to the same string: that string is the model. *)
Definition BrowserType : Type := string.

Definition edge : BrowserType := "edge".
Definition chrome : BrowserType := "chrome".
Definition firefox : BrowserType := "firefox".

(** An installation found by a browser finder. *)
Module IExecutable.
Record t := { path : string; quality : string }.
End IExecutable.

(** cli.ts, lines 10-14. *)
Module IWslInfo.
Record t := { execPath : string; distro : string; user : string }.
End IWslInfo.

(** [boolean | string] *)
Inductive UserDataDir :=
| Flag (b : bool)
| Dir (d : string).

(** A value of an environment object: [string], [null] or [undefined]. *)
Inductive EnvValue :=
| EnvString (s : string)
| EnvNull
| EnvUndefined.

(** cli.ts, lines 28-34: [ILaunchParams.params]. *)
Module Params.
Record t := {
  env : gmap string EnvValue;
  runtimeExecutable : string;
  userDataDir : UserDataDir;
  cwd : option string;        (* string | null *)
  webRoot : option string;    (* string | null *)
}.
End Params.

(** cli.ts, lines 16-35. *)
Module ILaunchParams.
Record t := {
  type : BrowserType;
  path : string;
  proxyUri : string;
  launchId : Z;
  browserArgs : list string;
  wslInfo : option IWslInfo.t;
  attach : option (string * Z);
  params : Params.t;
}.


Definition with_type (ty : BrowserType) (p : t) : t :=
  {| type := ty; path := path p; proxyUri := proxyUri p;
     launchId := launchId p; browserArgs := browserArgs p;
     wslInfo := wslInfo p; attach := attach p; params := params p |}.
End ILaunchParams.

(** What spawn.ts takes from its surroundings: the browser finders and
    [isQuality] of @vscode/js-debug-browsers, [exists] of ./fs, Node's
    [path.join] and [process], and the JavaScript built-ins [Number] and
    [JSON.stringify].  [num] is the type of JavaScript numbers. *)
Record Host (num : Type) := {
  isQuality : string -> bool;
  findAll : BrowserType -> list IExecutable.t;  (* this.finders[type].findAll() *)
  exists_ : string -> bool;
  join : string -> string -> string;
  Number : string -> num;
  JSON_stringify : list IExecutable.t -> string;
  platform : string;
  process_cwd : string;
  process_env : gmap string EnvValue;
}.

Arguments isQuality {num} _ _.
Arguments findAll {num} _ _.
Arguments exists_ {num} _ _.
Arguments join {num} _ _ _.
Arguments Number {num} _ _.
Arguments JSON_stringify {num} _ _.
Arguments platform {num} _.
Arguments process_cwd {num} _.
Arguments process_env {num} _.

(** What the spawner throws: a [UserError] of ./errors with its message,
    or the [TypeError] of the engine for a call of [undefined]. *)
Inductive Error :=
| mkUserError (message : string)
| TypeError.

Inductive Result (A : Type) :=
| Return (a : A)
| Throw (e : Error).

Arguments Return {A} a.
Arguments Throw {A} e.

(** [child_process.spawn(command, args, options)] *)
Inductive Stdio := ignore | pipe.

Inductive StdioOption :=
| StdioAll (s : Stdio)             (* stdio: 'ignore' *)
| StdioArray (l : list Stdio).     (* stdio: [...] *)

Record SpawnOptions := {
  detached : bool;
  spawn_env : gmap string EnvValue;
  stdio : StdioOption;
  spawn_cwd : string;
}.

Record ChildProcess := {
  command : string;
  args : list string;
  options : SpawnOptions;
}.

(** How descriptor [fd] of the child is set up: the array names the
    descriptors it lists, the string form names 0, 1 and 2. *)
Definition stdio_at (o : StdioOption) (fd : nat) : option Stdio :=
  match o with
  | StdioAll s => if bool_decide (fd < 3) then Some s else None
  | StdioArray l => l !! fd
  end.

(** [new PipedTarget(child)] and [ServerTarget.create(child, port)] of
    ./target. *)
Inductive Target (num : Type) :=
| PipedTarget (child : ChildProcess)
| ServerTarget (child : ChildProcess) (port : num).

Arguments PipedTarget {num} child.
Arguments ServerTarget {num} child port.

Definition child_of {num} (t : Target num) : ChildProcess :=
  match t with
  | PipedTarget c => c
  | ServerTarget c _ => c
  end.

(** The double-quote character of the messages. *)
Definition dquote : string := String (Ascii.ascii_of_nat 34) EmptyString.

Definition debugPortPrefix : string := "--remote-debugging-port=".
Definition debugPipeArg : string := "--remote-debugging-port=".

(** [a || b] on [string | null] operands. *)
Definition or_else (a b : option string) : option string :=
  match a with
  | Some s => if bool_decide (s = EmptyString) then b else Some s
  | None => b
  end.

(** [!x] for [x : string | null | undefined]. *)
Definition falsy (x : option string) : bool :=
  match x with
  | Some s => bool_decide (s = EmptyString)
  | None => true
  end.

Section BrowserSpawner.

Context {num : Type} (h : Host num).

(** The constructor parameter. *)
Variable storagePath : string.

(** The own keys of [this.finders] (lines 25-29). *)
Definition finder_keys : list BrowserType := [edge; chrome; firefox].

(** The keys that the object literal [this.finders] inherits from
    [Object.prototype]. *)
Definition inherited_keys : list string :=
  ["constructor"; "__defineGetter__"; "__defineSetter__"; "hasOwnProperty";
   "__lookupGetter__"; "__lookupSetter__"; "isPrototypeOf";
   "propertyIsEnumerable"; "toString"; "valueOf"; "__proto__";
   "toLocaleString"].

(** [type in this.finders] (line 38): the operator looks at own and at
    inherited properties. *)
Definition in_finders (t : BrowserType) : bool :=
  bool_decide (t ∈ finder_keys ++ inherited_keys).

(** Whether [this.finders[type]] is one of the three browser finders. *)
Definition has_finder (t : BrowserType) : bool :=
  bool_decide (t ∈ finder_keys).

(** The messages of lines 39, 52 and 56. *)
Definition notSupportedMessage (type : BrowserType) : string :=
  "Browser type " +:+ dquote +:+ type +:+ dquote +:+
  " is not supported.".

Definition noInstallationMessage (type : BrowserType) : string :=
  "Unable to find a " +:+ type +:+
  " installation on your system. Try installing it, or providing an absolute path to the browser in the " +:+
  dquote +:+ "runtimeExecutable" +:+ dquote +:+ " in your launch.json.".

Definition versionNotFoundMessage (type : BrowserType)
    (runtimeExecutable : string) (available : list IExecutable.t) : string :=
  "Unable to find " +:+ type +:+ " version " +:+
  runtimeExecutable +:+
  ". Available auto-discovered versions are: " +:+
  JSON_stringify h available +:+
  ". You can set the " +:+ dquote +:+ "runtimeExecutable" +:+ dquote +:+
  " in your launch.json to one of these, or provide an absolute path to the browser executable.".

(** Lines 33-62.  For an inherited key, [this.finders[type]] is a member
    of [Object.prototype], which has no [findAll]: the call of line 42
    throws a [TypeError]. *)
Definition findBrowserPath (type : BrowserType) (runtimeExecutable : string)
  : Result string :=
  if negb (bool_decide (runtimeExecutable = "*"))
     && negb (isQuality h runtimeExecutable)
  then Return runtimeExecutable
  else if negb (in_finders type) then
    Throw (mkUserError (notSupportedMessage type))
  else if negb (has_finder type) then Throw TypeError
  else
    let available := findAll h type in
    let resolved :=
      if bool_decide (runtimeExecutable = "*") then
        match Js.find (fun r => bool_decide (IExecutable.quality r = "stable"))
                      available with
        | Some r => Some r
        | None => head available
        end
      else
        Js.find (fun r => bool_decide (IExecutable.quality r = runtimeExecutable))
                available
    in
    match resolved with
    | None =>
        if bool_decide (runtimeExecutable = "stable")
           && bool_decide (length available = 0)
        then Throw (mkUserError (noInstallationMessage type))
        else Throw (mkUserError
                      (versionNotFoundMessage type runtimeExecutable available))
    | Some r => Return (IExecutable.path r)
    end.

(** Lines 82-102; [None] is [undefined]. *)
Definition getUserDataDir (p : ILaunchParams.t) : option string :=
  let requested := Params.userDataDir (ILaunchParams.params p) in
  match requested with
  | Flag false => None
  | _ =>
      let defaultDir :=
        join h storagePath
          (if Js.includes "--headless" (ILaunchParams.browserArgs p)
           then ".headless-profile" else ".profile") in
      match requested with
      | Flag _ => Some defaultDir
      | Dir d => if negb (exists_ h d) then Some defaultDir else Some d
      end
  end.

(** Lines 122-171.  The result pairs the processes spawned during the call
    with what the call returns or throws. *)
Definition launch (p : ILaunchParams.t)
  : list ChildProcess * Result (Target num) :=
  match findBrowserPath (ILaunchParams.type p)
          (Params.runtimeExecutable (ILaunchParams.params p)) with
  | Throw e => ([], Throw e)
  | Return binary =>
      let args := ILaunchParams.browserArgs p in
      let args :=
        match getUserDataDir p with
        | Some userDataDir => ("--user-data-dir=" +:+ userDataDir) :: args
        | None => args
        end in
      let cwd := or_else (Params.cwd (ILaunchParams.params p))
                         (Params.webRoot (ILaunchParams.params p)) in
      let cwd :=
        match cwd with
        | Some c =>
            if falsy cwd || negb (exists_ h c) then process_cwd h else c
        | None => process_cwd h
        end in
      let port :=
        Js.slice (String.length debugPortPrefix)
          <$> Js.find (Js.startsWith debugPortPrefix) args in
      let piped :=
        let child :=
          {| command := binary;
             args := args;
             options :=
               {| detached := negb (bool_decide (platform h = "win32"));
                  spawn_env :=
                    Params.env (ILaunchParams.params p)
                    ∪ <["ELECTRON_RUN_AS_NODE" := EnvUndefined]>
                        (<["GDK_PIXBUF_MODULE_FILE" := EnvUndefined]>
                          (<["GDK_PIXBUF_MODULEDIR" := EnvUndefined]>
                            (process_env h)));
                  stdio := StdioArray [ignore; ignore; ignore; pipe; pipe];
                  spawn_cwd := cwd |} |} in
        ([child], Return (PipedTarget child)) in
      match port with
      | None => piped                                   (* !undefined *)
      | Some port =>
          if bool_decide (port = EmptyString) then piped  (* !'' *)
          else
            let args :=
              if negb (Js.includes debugPipeArg args) then debugPipeArg :: args
              else args in
            let child :=
              {| command := binary;
                 args := args;
                 options :=
                   {| detached := negb (bool_decide (platform h = "win32"));
                      spawn_env :=
                        Params.env (ILaunchParams.params p)
                        ∪ {["ELECTRON_RUN_AS_NODE" := EnvUndefined]};
                      stdio := StdioAll ignore;
                      spawn_cwd := cwd |} |} in
            ([child], Return (ServerTarget child (Number h port)))
      end
  end.

(** An [IBrowserFinder] of @vscode/js-debug-browsers, as
    [findBrowserByExe] uses it. *)
Record IBrowserFinder := {
  findWhere : (IExecutable.t -> bool) -> option IExecutable.t;
  finder_findAll : list IExecutable.t;
}.

(** Lines 64-80; [None] is [undefined]. *)
Definition findBrowserByExe (finder : IBrowserFinder) (executablePath : string)
  : option string :=
  if bool_decide (executablePath = "*") then
    let found :=
      match findWhere finder
              (fun r => bool_decide (IExecutable.quality r = "stable")) with
      | Some r => Some r
      | None => head (finder_findAll finder)
      end in
    IExecutable.path <$> found
  else if isQuality h executablePath then
    IExecutable.path
      <$> findWhere finder
            (fun r => bool_decide (IExecutable.quality r = executablePath))
  else Some executablePath.

(** Lines 107-115.  [spawn] is given neither [env] nor [cwd], so the child
    has those of the process. *)
Definition launchBrowserOnly (type : BrowserType) (url : string)
  : list ChildProcess * Result unit :=
  match findBrowserPath type "*" with
  | Throw e => ([], Throw e)
  | Return binary =>
      ([{| command := binary;
           args := [url];
           options :=
             {| detached := true;
                spawn_env := process_env h;
                stdio := StdioAll ignore;
                spawn_cwd := process_cwd h |} |}], Return tt)
  end.

End BrowserSpawner.

End Spawn.

(** ** A concrete host and concrete launches, for the examples *)

Module Example.

Import Spawn.

(** [Number] on strings of decimal digits, where it agrees with
    JavaScript; [None] stands for every other string, which the examples
    do not convert. *)
Fixpoint digits (s : string) (acc : N) : option N :=
  match s with
  | EmptyString => Some acc
  | String c rest =>
      let n := Ascii.N_of_ascii c in
      if ((48 <=? n) && (n <=? 57))%N then digits rest (acc * 10 + (n - 48))%N
      else None
  end.

(** A Linux machine with the given Chrome installations, on which no
    requested path exists.  [JSON.stringify] is given for the empty array
    only, which is all the examples print. *)
Definition host_with (installations : list IExecutable.t) : Host (option N) :=
  {| isQuality := fun s =>
       bool_decide (s ∈ ["canary"; "stable"; "beta"; "dev"; "custom"]);
     findAll := fun t =>
       if bool_decide (t = chrome) then installations else [];
     exists_ := fun _ => false;
     join := fun a b => a +:+ "/" +:+ b;
     Number := fun s => digits s 0%N;
     JSON_stringify := fun _ => "[]";
     platform := "linux";
     process_cwd := "/";
     process_env := ∅ |}.

Definition host : Host (option N) := host_with [].

Definition canary : IExecutable.t :=
  {| IExecutable.path := "/opt/chrome-canary/chrome";
     IExecutable.quality := "canary" |}.

Definition stable : IExecutable.t :=
  {| IExecutable.path := "/opt/chrome/chrome";
     IExecutable.quality := "stable" |}.

Definition launch_params (runtimeExecutable : string) (userDataDir : UserDataDir)
    (browserArgs : list string) (wslInfo : option IWslInfo.t)
  : ILaunchParams.t :=
  {| ILaunchParams.type := chrome;
     ILaunchParams.path := "/";
     ILaunchParams.proxyUri := "127.0.0.1:9000";
     ILaunchParams.launchId := 7;
     ILaunchParams.browserArgs := browserArgs;
     ILaunchParams.wslInfo := wslInfo;
     ILaunchParams.attach := None;
     ILaunchParams.params :=
       {| Params.env := ∅;
          Params.runtimeExecutable := runtimeExecutable;
          Params.userDataDir := userDataDir;
          Params.cwd := None;
          Params.webRoot := None |} |}.


(** [parseInt(s, 10)] on strings that begin with a decimal digit, where
    it gives the number written by the digits up to the first other
    character; [NaN] stands for every other string, which the examples do
    not parse. *)
Fixpoint leading_digits (s : string) (acc : option N) : option N :=
  match s with
  | EmptyString => acc
  | String c rest =>
      let n := Ascii.N_of_ascii c in
      if ((48 <=? n) && (n <=? 57))%N
      then leading_digits rest (Some (default 0 acc * 10 + (n - 48)))%N
      else acc
  end.

End Example.

(** ** The session registry *)

Module Registry.

Section Registry.

(** The spawner interface consumed by the registry:
    [spawn(params) -> (processHandle, transportDescriptor) | Error]. *)
Context {Params Handle Transport Error : Type}.
Variable spawn : Params -> (Handle * Transport) + Error.

(** Modelled from the spec: the Target of the data model, whose source file
    is not available.  It owns one child process handle and one
    transport. *)
Record Target := {
  process : Handle;
  transport : Transport;
}.

(** Modelled from the spec: the registry state of the session manager,
    whose source file is not available.  It is the identifier-to-Target
    map, kept together with the calls made so far to the spawner and to
    [stop()] of Targets (oldest first). *)
Record t := {
  targets : gmap Z Target;
  spawns : list Params;
  stops : list Target;
}.

Definition empty : t := {| targets := ∅; spawns := []; stops := [] |}.

Inductive CreateError :=
| AlreadyLive (id : Z)
| SpawnFailed (e : Error).

(** Modelled from the spec: the registry operation [create] of the session
    manager, whose source file is not available.  It rejects when [id]
    already has a live Target, without replacing it; otherwise it
    delegates to the spawner, wraps the result as a Target and registers
    it before returning success; when the spawn fails nothing is
    registered and the failure is surfaced. *)
Definition create (id : Z) (p : Params) (r : t) : t * (unit + CreateError) :=
  match targets r !! id with
  | Some _ => (r, inr (AlreadyLive id))
  | None =>
      match spawn p with
      | inl (hd, tr) =>
          ({| targets := <[id := {| process := hd; transport := tr |}]> (targets r);
              spawns := spawns r ++ [p];
              stops := stops r |}, inl tt)
      | inr e =>
          ({| targets := targets r; spawns := spawns r ++ [p]; stops := stops r |},
           inr (SpawnFailed e))
      end
  end.

(** Modelled from the spec: the registry operation [destroy] of the session
    manager, whose source file is not available.  When [id] is not
    registered it is a no-op; when it is, it calls the Target's [stop()]
    and removes the entry.  It returns nothing and cannot fail. *)
Definition destroy (id : Z) (r : t) : t :=
  match targets r !! id with
  | None => r
  | Some tg =>
      {| targets := delete id (targets r);
         spawns := spawns r;
         stops := stops r ++ [tg] |}
  end.

(** Modelled from the spec: the registry operation [disposeAll] of the
    session manager, whose source file is not available.  It calls
    [destroy] for every registered identifier. *)
Definition disposeAll (r : t) : t :=
  foldr destroy r (elements (dom (targets r))).

(** Modelled from the spec: the spontaneous-exit notification of a Target,
    whose source file is not available.  The Target has stopped by itself;
    the registry removes the entry so that the identifier can be reused. *)
Definition closed (id : Z) (r : t) : t :=
  {| targets := delete id (targets r); spawns := spawns r; stops := stops r |}.

(** What can happen to a registry. *)
Inductive Op :=
| Create (id : Z) (p : Params)
| Destroy (id : Z)
| DisposeAll
| Closed (id : Z).

Definition step (op : Op) (r : t) : t :=
  match op with
  | Create id p => fst (create id p r)
  | Destroy id => destroy id r
  | DisposeAll => disposeAll r
  | Closed id => closed id r
  end.

Definition run (ops : list Op) (r : t) : t := foldl (fun r op => step op r) r ops.

(** [op] never removes the entry of [id]. *)
Definition keeps (id : Z) (op : Op) : bool :=
  match op with
  | Create _ _ => true
  | Destroy id' | Closed id' => negb (bool_decide (id' = id))
  | DisposeAll => false
  end.

End Registry.

Arguments Target : clear implicits.
Arguments t : clear implicits.
Arguments CreateError : clear implicits.
Arguments Op : clear implicits.

End Registry.

(** ** cli.ts: the [/kill] route (lines 104-108, 113-121) *)

Module Cli.

Inductive Body :=
| Success                     (* { success: true } *)
| Failure (error : string).   (* { error: message } *)

Record Response := {
  status : Z;
  body : Body;
}.

Section Kill.

Context {Params Handle Transport Error : Type}.

(** [const { launchId } = JSON.parse(body)]: either the statement throws
    an Error with the given message, or [launchId] is bound to an integer
    identifier. *)
Variable parse_launchId : string -> string + Z.

Definition kill (request_body : string)
    (manager : Registry.t Params Handle Transport)
  : Registry.t Params Handle Transport * Response :=
  match parse_launchId request_body with
  | inr launchId =>
      (Registry.destroy launchId manager, {| status := 200; body := Success |})
  | inl message =>
      (manager, {| status := 500; body := Failure message |})
  end.

End Kill.

End Cli.

(** ** cli.ts: [parseArgs] and the checks of [main] (lines 41-68)

    A command-line argument is the UTF-8 text of the JavaScript string. *)

Module Startup.

(** A line terminator of ECMAScript: LF, CR, U+2028 or U+2029 (in UTF-8
    the bytes E2 80 A8 and E2 80 A9). *)
Fixpoint has_line_terminator (s : string) : bool :=
  match s with
  | EmptyString => false
  | String c rest =>
      let n := Ascii.nat_of_ascii c in
      bool_decide (n = 10) || bool_decide (n = 13)
      || match rest with
         | String c2 (String c3 _) =>
             bool_decide (n = 226) && bool_decide (Ascii.nat_of_ascii c2 = 128)
             && (bool_decide (Ascii.nat_of_ascii c3 = 168)
                 || bool_decide (Ascii.nat_of_ascii c3 = 169))
         | _ => false
         end
      || has_line_terminator rest
  end.

(** Splits at the first occurrence of the character [sep]: what stands
    before it, and what stands after it when there is one. *)
Fixpoint break_at (sep : Ascii.ascii) (s : string) : string * option string :=
  match s with
  | EmptyString => (EmptyString, None)
  | String c rest =>
      if bool_decide (c = sep) then (EmptyString, Some rest)
      else let '(before, after) := break_at sep rest in (String c before, after)
  end.

(** Whether the character [c] occurs in [s]. *)
Fixpoint occurs (c : Ascii.ascii) (s : string) : bool :=
  match s with
  | EmptyString => false
  | String c' rest => bool_decide (c' = c) || occurs c rest
  end.

Definition equals_sign : Ascii.ascii := Ascii.ascii_of_nat 61.
Definition colon : Ascii.ascii := Ascii.ascii_of_nat 58.
Definition dash : Ascii.ascii := Ascii.ascii_of_nat 45.

(** The match of line 44 (two dashes, one or more characters other than
    the equals sign, an equals sign, any characters matched by the dot, to
    the end of the argument): the two groups.  The key
    is the text between the two dashes and the first equals sign and is
    not empty; the value is the rest, which a dot matches only when it
    holds no line terminator. *)
Definition match_arg (arg : string) : option (string * string) :=
  match arg with
  | String c1 (String c2 rest) =>
      if bool_decide (c1 = dash) && bool_decide (c2 = dash) then
        match break_at equals_sign rest with
        | (key, Some value) =>
            if bool_decide (key = EmptyString) then None
            else if has_line_terminator value then None
            else Some (key, value)
        | (_, None) => None
        end
      else None
  | _ => None
  end.

(** [args[key] = value] on the object literal of line 42: an own property
    is written, except for the key [__proto__], whose setter drops a
    string. *)
Definition assign (key value : string) (args : gmap string string)
  : gmap string string :=
  if bool_decide (key = "__proto__") then args else <[key := value]> args.

(** The body of the loop of lines 43-48. *)
Definition parse_step (args : gmap string string) (arg : string)
  : gmap string string :=
  match match_arg arg with
  | Some (key, value) => assign key value args
  | None => args
  end.

(** [parseArgs] (lines 41-50), given [process.argv.slice(2)]: the own
    properties of the object returned. *)
Definition parseArgs (argv : list string) : gmap string string :=
  foldl parse_step ∅ argv.

(** [s.split(':')], its first two elements: the second is [undefined]
    when [s] has no colon. *)
Definition split_host_port (s : string) : string * option string :=
  let '(host, after) := break_at colon s in
  (host, (fun r => fst (break_at colon r)) <$> after).

(** What [parseInt(x, 10)] gives: [NaN] or an integer ([main] only asks
    whether it is [NaN] or zero, and passes it on to [listen]). *)
Inductive Parsed :=
| NaN
| Int (z : Z).

Section Main.

(** [parseInt(s, 10)] on a string, a built-in of JavaScript. *)
Variable parseInt : string -> Parsed.

(** [parseInt(undefined, 10)] converts [undefined] to its name, which has
    no digit. *)
Definition parseInt_opt (x : option string) : Parsed :=
  match x with
  | Some s => parseInt s
  | None => NaN
  end.

(** [!port || isNaN(port)] *)
Definition bad_port (port : Parsed) : bool :=
  match port with
  | NaN => true
  | Int z => bool_decide (z = 0%Z)
  end.

(** How [main] goes on after reading the arguments. *)
Inductive Startup :=
| Usage                                            (* lines 55-60: exit 1 *)
| InvalidListen                                    (* lines 65-68: exit 1 *)
| Listen (host : string) (port : Z) (state : string).   (* lines 70-131 *)

(** [!x] for [x : string | undefined]. *)
Definition absent (x : option string) : bool :=
  match x with
  | Some s => bool_decide (s = EmptyString)
  | None => true
  end.

(** [main] up to [server.listen] (lines 52-71, 125). *)
Definition main (argv : list string) : Startup :=
  let args := parseArgs argv in
  if absent (args !! "listen") || absent (args !! "state") then Usage
  else
    match args !! "listen", args !! "state" with
    | Some listen, Some state =>
        let '(host, portStr) := split_host_port listen in
        match parseInt_opt portStr with
        | NaN => InvalidListen
        | Int port =>
            if bool_decide (host = EmptyString) || bad_port (Int port)
            then InvalidListen
            else Listen host port state
        end
    | _, _ => Usage
    end.

End Main.

End Startup.

(** ** cli.ts: the request handler (lines 73-123) *)

Module Http.

Inductive Content :=
| Empty                          (* res.end() *)
| Text (s : string)              (* res.end('...') *)
| JsonSuccess                    (* JSON.stringify({ success: true }) *)
| JsonError (error : string).    (* JSON.stringify({ error }) *)

Record Reply := {
  code : Z;
  headers : list (string * string);
  content : Content;
}.

(** Lines 75-77. *)
Definition cors : list (string * string) :=
  [("Access-Control-Allow-Origin", "*");
   ("Access-Control-Allow-Methods", "GET, POST, OPTIONS");
   ("Access-Control-Allow-Headers", "Content-Type")].

(** What a [catch] clause receives. *)
Inductive Thrown :=
| ErrorInstance (message : string)
| NotAnError.

(** [error instanceof Error ? error.message : 'Unknown error'] *)
Definition message_of (t : Thrown) : string :=
  match t with
  | ErrorInstance m => m
  | NotAnError => "Unknown error"
  end.

Section Handler.

(** The session manager, with [create] and [destroy] as the handler calls
    them: each gives the manager afterwards and what the handler caught,
    if anything ([create] is awaited; [destroy] is not, so for it only a
    synchronous throw is caught). *)
Context {Manager : Type}.
Variable create : Spawn.ILaunchParams.t -> Manager -> Manager * option Thrown.
Variable destroy : Z -> Manager -> Manager * option Thrown.

(** [JSON.parse(body)] read as launch parameters, and as an object with a
    [launchId]; [inl] is what the statement throws. *)
Variable parse_params : string -> Thrown + Spawn.ILaunchParams.t.
Variable parse_launchId : string -> Thrown + Z.

Definition failed (t : Thrown) : Reply :=
  {| code := 500;
     headers := cors ++ [("Content-Type", "application/json")];
     content := JsonError (message_of t) |}.

Definition succeeded : Reply :=
  {| code := 200;
     headers := cors ++ [("Content-Type", "application/json")];
     content := JsonSuccess |}.

(** One request, its body read to the end. *)
Definition handle (method url body : string) (manager : Manager)
  : Manager * Reply :=
  if bool_decide (method = "OPTIONS") then
    (manager, {| code := 200; headers := cors; content := Empty |})
  else if negb (bool_decide (method = "POST")) then
    (manager,
     {| code := 405;
        headers := cors ++ [("Content-Type", "text/plain")];
        content := Text "Method not allowed" |})
  else if bool_decide (url = "/launch-and-attach") then
    match parse_params body with
    | inl t => (manager, failed t)
    | inr params =>
        match create params manager with
        | (manager', None) => (manager', succeeded)
        | (manager', Some t) => (manager', failed t)
        end
    end
  else if bool_decide (url = "/kill") then
    match parse_launchId body with
    | inl t => (manager, failed t)
    | inr launchId =>
        match destroy launchId manager with
        | (manager', None) => (manager', succeeded)
        | (manager', Some t) => (manager', failed t)
        end
    end
  else
    (manager,
     {| code := 404;
        headers := cors ++ [("Content-Type", "text/plain")];
        content := Text "Not found" |}).

End Handler.

End Http.

(** * Properties *)

(** ** Node's emitter *)

Section NodeEventEmitterFacts.

Import NodeEventEmitter.

Lemma listeners_create name : listeners name create = [].
Proof. unfold listeners, create. by rewrite lookup_empty. Qed.

Lemma listeners_on name l e :
  listeners name (on name l e) = listeners name e ++ [l].
Proof. unfold listeners at 1, on. by rewrite lookup_insert_eq. Qed.

Lemma remove_last_nil l : remove_last l [] = [].
Proof. done. Qed.

Lemma listeners_removeListener name l e :
  listeners name (removeListener name l e) = remove_last l (listeners name e).
Proof.
  unfold removeListener, listeners.
  destruct (e !! name) as [ls|] eqn:E; simpl.
  - by rewrite lookup_insert_eq.
  - by rewrite E.
Qed.

Lemma listeners_removeAllListeners name e :
  listeners name (removeAllListeners name e) = [].
Proof. unfold listeners, removeAllListeners. by rewrite lookup_delete_eq. Qed.

End NodeEventEmitterFacts.

(** ** Removing one registration *)

Section RemoveFacts.

Import First.CancellationTokenSource.


Lemma remove_first_sublist l ls : remove_first l ls `sublist_of` ls.
Proof.
  induction ls as [|x ls IH]; [done|]. simpl.
  case_bool_decide.
  - by apply sublist_cons.
  - by apply sublist_skip.
Qed.


End RemoveFacts.

(** ** The cancellation sources *)

Section Cancellation.

Context (bodies : Bodies).

(** *** The first version *)

Section FirstFacts.

Import First.CancellationTokenSource.

Lemma sublist_drop_mono {A} (l1 l2 : list A) n :
  l1 `sublist_of` l2 -> drop n l1 `sublist_of` drop n l2.
Proof.
  intros H. revert n. induction H as [|x l1 l2 H IH|x l1 l2 H IH]; intros n.
  - done.
  - destruct n as [|n]; simpl; [by apply sublist_skip|apply IH].
  - destruct n as [|n]; simpl; [by apply sublist_cons|].
    etrans; [|apply IH].
    destruct (l1 !! n) as [y|] eqn:E.
    + rewrite (drop_S _ _ _ E). by apply sublist_cons.
    + apply lookup_ge_None in E. rewrite !drop_ge by lia. done.
Qed.

(** The body of a listener only ever takes listeners off the array. *)
Lemma call_sublist l ls : call bodies l ls `sublist_of` ls.
Proof.
  unfold call. generalize (bodies l). intros ds. revert ls.
  induction ds as [|d ds IH]; intros ls; [done|]. simpl.
  etrans; [apply IH|apply remove_first_sublist].
Qed.

Lemma call_nil l : call bodies l [] = [].
Proof. apply sublist_nil_r, call_sublist. Qed.

Lemma call_inert l ls : bodies l = [] -> call bodies l ls = ls.
Proof. intros H. unfold call. by rewrite H. Qed.

Lemma call_length l ls : length (call bodies l ls) <= length ls.
Proof. apply sublist_length, call_sublist. Qed.

(** The loop ends because the index runs off the array, never because
    the bound on its steps is reached, once the bound is the length of the
    array or more. *)
Lemma for_of_steps steps steps' index ls :
  length ls <= index + steps -> length ls <= index + steps' ->
  for_of bodies steps index ls = for_of bodies steps' index ls.
Proof.
  revert steps' index ls.
  induction steps as [|steps IH]; intros steps' index ls H H'.
  - destruct steps' as [|steps']; [done|]. simpl.
    by rewrite lookup_ge_None_2 by lia.
  - simpl. destruct (ls !! index) as [l|] eqn:E.
    + apply lookup_lt_Some in E as Hlt.
      destruct steps' as [|steps']; [lia|]. simpl. rewrite E.
      pose proof (call_length l ls).
      rewrite (IH steps' (S index) (call bodies l ls)) by lia. done.
    + destruct steps' as [|steps']; [done|]. simpl. by rewrite E.
Qed.

(** The listeners that the loop calls are listeners of the array as it
    was when the loop began, in the order of the array, each element at
    most once. *)
Lemma for_of_sublist steps index ls :
  fst (for_of bodies steps index ls) `sublist_of` drop index ls.
Proof.
  revert index ls. induction steps as [|steps IH]; intros index ls; simpl.
  - apply sublist_nil_l.
  - destruct (ls !! index) as [l|] eqn:E; [|apply sublist_nil_l].
    specialize (IH (S index) (call bodies l ls)).
    destruct (for_of bodies steps (S index) (call bodies l ls)) as [calls ls'].
    simpl in *. rewrite (drop_S _ _ _ E). apply sublist_skip.
    etrans; [exact IH|]. apply sublist_drop_mono, call_sublist.
Qed.

(** When no listener of the array disposes a registration, the loop calls
    every element from the index on. *)
Lemma for_of_inert steps index ls :
  (forall l, l ∈ ls -> bodies l = []) ->
  length ls <= index + steps ->
  for_of bodies steps index ls = (drop index ls, ls).
Proof.
  intros Hin. revert index. induction steps as [|steps IH]; intros index H.
  - simpl. by rewrite drop_ge by lia.
  - simpl. destruct (ls !! index) as [l|] eqn:E.
    + rewrite call_inert by (by eapply Hin, list_elem_of_lookup_2).
      rewrite IH by lia. by rewrite (drop_S _ _ _ E).
    + apply lookup_ge_None in E. by rewrite drop_ge.
Qed.

Lemma first_cancel_fresh s :
  _cancelled s = false ->
  cancel bodies s =
    ({| _cancelled := true; _listeners := [] |},
     fst (for_of bodies (length (_listeners s)) 0 (_listeners s))).
Proof. intros H. unfold cancel. by rewrite H. Qed.

Lemma first_cancel_sublist s : snd (cancel bodies s) `sublist_of` _listeners s.
Proof.
  unfold cancel. destruct (_cancelled s); simpl; [apply sublist_nil_l|].
  apply (for_of_sublist _ 0).
Qed.

(** When the listeners in place dispose nothing, the first [cancel()]
    calls each of them, in order. *)
Lemma first_cancel_inert s :
  _cancelled s = false ->
  (forall l, l ∈ _listeners s -> bodies l = []) ->
  cancel bodies s = ({| _cancelled := true; _listeners := [] |}, _listeners s).
Proof.
  intros H Hin. rewrite first_cancel_fresh by done.
  rewrite for_of_inert by (done || lia). done.
Qed.

Lemma first_cancel_again s : _cancelled s = true -> cancel bodies s = (s, []).
Proof. intros H. unfold cancel. by rewrite H. Qed.

Lemma first_cancelled_after_cancel s : _cancelled (fst (cancel bodies s)) = true.
Proof. unfold cancel. by destruct (_cancelled s) eqn:E. Qed.

(** Once cancelled, any further number of [cancel()] calls leaves the
    source as it is and calls nothing. *)
Lemma first_cancel_repeat n s :
  _cancelled s = true ->
  Api.first_run bodies (replicate n Api.Cancel) s = (s, []).
Proof.
  intros H. induction n as [|n IH]; [done|].
  unfold Api.first_run in *. simpl. rewrite first_cancel_again by done.
  simpl. by rewrite IH.
Qed.

(** The accessor never reads the source's flag. *)
Lemma first_isCancellationRequested_undefined s :
  isCancellationRequested s = Js.Undefined.
Proof. done. Qed.

(** A listener attached to a cancelled source is called at once and is
    not queued. *)
Lemma first_late_listener_called s l :
  _cancelled s = true ->
  onCancellationRequested bodies l s =
    ({| _cancelled := true; _listeners := call bodies l (_listeners s) |}, [l]).
Proof. intros H. unfold onCancellationRequested. simpl. by rewrite H. Qed.

Lemma first_early_listener_queued s l :
  _cancelled s = false ->
  onCancellationRequested bodies l s =
    ({| _cancelled := false; _listeners := _listeners s ++ [l] |}, []).
Proof. intros H. unfold onCancellationRequested. simpl. by rewrite H. Qed.

(** No operation takes the cancellation back. *)
Lemma first_cancelled_step op s :
  _cancelled s = true -> _cancelled (fst (Api.first_step bodies op s)) = true.
Proof.
  intros H. destruct op as [|l|l| | |]; simpl; try done.
  - by rewrite first_late_listener_called.
  - by rewrite first_cancel_again.
Qed.

Lemma first_cancelled_stays ops s :
  _cancelled s = true -> _cancelled (fst (Api.first_run bodies ops s)) = true.
Proof.
  unfold Api.first_run. revert s.
  induction ops as [|op ops IH]; intros s H; [done|]. cbn [Api.run].
  pose proof (first_cancelled_step op s H) as H1.
  destruct (Api.first_step bodies op s) as [s1 o1]. specialize (IH s1 H1).
  by destruct (Api.run (Api.first_step bodies) ops s1).
Qed.

End FirstFacts.

(** *** The second version *)

Section SecondFacts.

Import Second.

Local Abbreviation wf := CancellationTokenSource.wf.

Lemma wf_create : wf CancellationTokenSource.create.
Proof. done. Qed.

Lemma second_token_spec s :
  wf s ->
  let '(s', k) := CancellationTokenSource.token bodies s in
  CancellationTokenSource._token s' = Some k
  /\ CancellationTokenSource._isCancelled s' = CancellationTokenSource._isCancelled s
  /\ MutableToken._isCancelled k = CancellationTokenSource._isCancelled s
  /\ MutableToken.listeners k = CancellationTokenSource.listeners s.
Proof.
  unfold CancellationTokenSource.wf, CancellationTokenSource.token, CancellationTokenSource.listeners.
  destruct s as [[k|] c]; simpl; [done|].
  by destruct c.
Qed.

Lemma wf_token s : wf s -> wf (fst (CancellationTokenSource.token bodies s)).
Proof.
  intros H. pose proof (second_token_spec s H) as Hs.
  destruct (CancellationTokenSource.token bodies s) as [s' k]. simpl.
  destruct Hs as (Ht & Hc & Hk & _). unfold CancellationTokenSource.wf. rewrite Ht. congruence.
Qed.

Lemma second_listeners_token s :
  wf s ->
  CancellationTokenSource.listeners (fst (CancellationTokenSource.token bodies s))
  = CancellationTokenSource.listeners s.
Proof.
  intros H. pose proof (second_token_spec s H) as Hs.
  destruct (CancellationTokenSource.token bodies s) as [s' k]. simpl.
  destruct Hs as (Ht & _ & _ & Hl).
  unfold CancellationTokenSource.listeners at 1. by rewrite Ht.
Qed.

Lemma second_flag_token s :
  CancellationTokenSource._isCancelled (fst (CancellationTokenSource.token bodies s))
  = CancellationTokenSource._isCancelled s.
Proof. unfold CancellationTokenSource.token. by destruct s as [[k|] c]. Qed.

Lemma mutable_listeners_on l k :
  MutableToken.listeners (MutableToken.onCancellationRequested l k)
  = MutableToken.listeners k ++ [l].
Proof.
  unfold MutableToken.onCancellationRequested,
    MutableToken.get_onCancellationRequested, MutableToken.listeners.
  destruct k as [c [e|]]; simpl;
    unfold EventEmitter.listeners, EventEmitter.event; simpl;
    rewrite listeners_on; [done|].
  by rewrite listeners_create.
Qed.

Lemma mutable_flag_on l k :
  MutableToken._isCancelled (MutableToken.onCancellationRequested l k)
  = MutableToken._isCancelled k.
Proof.
  unfold MutableToken.onCancellationRequested,
    MutableToken.get_onCancellationRequested.
  by destruct k as [c [e|]].
Qed.

Lemma second_on_spec l s :
  wf s ->
  let s' := CancellationTokenSource.onCancellationRequested bodies l s in
  wf s'
  /\ CancellationTokenSource._isCancelled s' = CancellationTokenSource._isCancelled s
  /\ CancellationTokenSource.listeners s' = CancellationTokenSource.listeners s ++ [l].
Proof.
  intros H. pose proof (second_token_spec s H) as Hs.
  unfold CancellationTokenSource.onCancellationRequested.
  destruct (CancellationTokenSource.token bodies s) as [s1 k].
  destruct Hs as (Ht & Hc & Hk & Hl). simpl.
  unfold CancellationTokenSource.wf, CancellationTokenSource.listeners at 1,
    CancellationTokenSource.set_token; simpl.
  rewrite mutable_flag_on, mutable_listeners_on. by rewrite Hk, Hc, Hl.
Qed.

Lemma second_dispose_registration_spec l s :
  wf s ->
  let s' := CancellationTokenSource.dispose_registration l s in
  wf s'
  /\ CancellationTokenSource._isCancelled s' = CancellationTokenSource._isCancelled s
  /\ CancellationTokenSource.listeners s'
     = NodeEventEmitter.remove_last l (CancellationTokenSource.listeners s).
Proof.
  unfold CancellationTokenSource.wf, CancellationTokenSource.dispose_registration,
    CancellationTokenSource.listeners, CancellationTokenSource.set_token.
  destruct s as [[[c [e|]]|] c']; simpl; intros H; split_and!; try done.
  unfold EventEmitter.listeners, EventEmitter.dispose_registration; simpl.
  apply listeners_removeListener.
Qed.

(** Disposables disposed one after the other take the latest registration
    of each listener named off the emitter. *)
Lemma listeners_disposed ds e :
  EventEmitter.listeners
    (foldl (fun e l => EventEmitter.dispose_registration l e) e ds)
  = foldl (fun a l => NodeEventEmitter.remove_last l a)
      (EventEmitter.listeners e) ds.
Proof.
  revert e. induction ds as [|d ds IH]; intros e; [done|]. simpl.
  rewrite IH. f_equal.
  unfold EventEmitter.listeners, EventEmitter.dispose_registration. simpl.
  apply listeners_removeListener.
Qed.

(** The first [cancel()] of a source calls the listeners registered on its
    token, every one of them, in order, each with [undefined]; what stays
    registered is what their bodies did not dispose. *)
Lemma second_cancel_fresh s :
  wf s ->
  CancellationTokenSource._isCancelled s = false ->
  let '(s', calls) := CancellationTokenSource.cancel bodies s in
  calls = (fun l => (l, Js.Undefined)) <$> CancellationTokenSource.listeners s
  /\ wf s'
  /\ CancellationTokenSource._isCancelled s' = true
  /\ CancellationTokenSource.listeners s'
     = foldl (fun a l => NodeEventEmitter.remove_last l a)
         (CancellationTokenSource.listeners s)
         (CancellationTokenSource.listeners s ≫= bodies).
Proof.
  unfold CancellationTokenSource.wf, CancellationTokenSource.cancel, CancellationTokenSource.listeners,
    MutableToken.cancel.
  destruct s as [[[c [e|]]|] c']; simpl; intros H H'; subst; simpl;
    split_and!; try done.
  apply listeners_disposed.
Qed.

Lemma second_cancel_again s :
  wf s ->
  CancellationTokenSource._isCancelled s = true ->
  CancellationTokenSource.cancel bodies s = (s, []).
Proof.
  unfold CancellationTokenSource.wf, CancellationTokenSource.cancel, MutableToken.cancel.
  destruct s as [[[c e]|] c']; simpl; intros H H'; subst; simpl; done.
Qed.

Lemma second_cancel_repeat n s :
  wf s ->
  CancellationTokenSource._isCancelled s = true ->
  Api.second_run bodies (replicate n Api.Cancel) s = (s, []).
Proof.
  intros Hwf H. induction n as [|n IH]; [done|].
  unfold Api.second_run in *. simpl. rewrite second_cancel_again by done.
  simpl. by rewrite IH.
Qed.

(** Every operation of the API keeps [wf]. *)
Lemma wf_step op s : wf s -> wf (fst (Api.second_step bodies op s)).
Proof.
  intros H. destruct op as [|l|l| | |]; simpl.
  - by apply wf_token.
  - by apply second_on_spec.
  - by apply second_dispose_registration_spec.
  - destruct (CancellationTokenSource._isCancelled s) eqn:E.
    + by rewrite second_cancel_again.
    + pose proof (second_cancel_fresh s H E) as Hc.
      destruct (CancellationTokenSource.cancel bodies s). simpl. tauto.
  - unfold CancellationTokenSource.dispose.
    destruct (CancellationTokenSource._isCancelled s) eqn:E.
    + by rewrite second_cancel_again.
    + pose proof (second_cancel_fresh s H E) as Hc.
      destruct (CancellationTokenSource.cancel bodies s). simpl. tauto.
  - unfold CancellationTokenSource.isCancellationRequested.
    pose proof (wf_token s H) as Ht.
    by destruct (CancellationTokenSource.token bodies s).
Qed.

Lemma wf_run ops s : wf s -> wf (fst (Api.second_run bodies ops s)).
Proof.
  revert s. induction ops as [|op ops IH]; intros s H; [done|].
  unfold Api.second_run in *. simpl.
  pose proof (wf_step op s H) as H1.
  destruct (Api.second_step bodies op s) as [s1 o1]. simpl in H1.
  specialize (IH s1 H1). by destruct (Api.run (Api.second_step bodies) ops s1).
Qed.

End SecondFacts.

(** *** Running the API *)

Section RunFacts.

Import Api.

Lemma run_app {St} (step : Op -> St -> St * list Obs) ops1 ops2 s :
  run step (ops1 ++ ops2) s =
    let '(s1, o1) := run step ops1 s in
    let '(s2, o2) := run step ops2 s1 in
    (s2, o1 ++ o2).
Proof.
  revert s. induction ops1 as [|op ops1 IH]; intros s; simpl.
  - by destruct (run step ops2 s).
  - destruct (step op s) as [s1 o1]. rewrite IH.
    destruct (run step ops1 s1) as [s2 o2].
    destruct (run step ops2 s2) as [s3 o3]. by rewrite app_assoc.
Qed.

(** Registrations made on a source that is not cancelled call nothing and
    queue in order. *)
Lemma first_run_registrations ls s :
  First.CancellationTokenSource._cancelled s = false ->
  first_run bodies (OnCancellationRequested <$> ls) s =
    ({| First.CancellationTokenSource._cancelled := false;
        First.CancellationTokenSource._listeners :=
          First.CancellationTokenSource._listeners s ++ ls |}, []).
Proof.
  unfold first_run. revert s.
  induction ls as [|l ls IH]; intros s H.
  - destruct s as [c q]. simpl in *. subst. by rewrite app_nil_r.
  - cbn [fmap list_fmap run first_step].
    rewrite first_early_listener_queued by done.
    rewrite IH by done. simpl. by rewrite <- app_assoc.
Qed.

Lemma second_run_registrations ls s :
  Second.CancellationTokenSource.wf s ->
  exists s',
    second_run bodies (OnCancellationRequested <$> ls) s = (s', [])
    /\ Second.CancellationTokenSource.wf s'
    /\ Second.CancellationTokenSource._isCancelled s'
       = Second.CancellationTokenSource._isCancelled s
    /\ Second.CancellationTokenSource.listeners s'
       = Second.CancellationTokenSource.listeners s ++ ls.
Proof.
  unfold second_run. revert s.
  induction ls as [|l ls IH]; intros s H.
  - exists s. by rewrite app_nil_r.
  - destruct (second_on_spec l s H) as (Hwf & Hc & Hl).
    destruct (IH _ Hwf) as (s' & Hrun & Hwf' & Hc' & Hl').
    exists s'. rewrite fmap_cons. cbn [run second_step]. rewrite Hrun.
    split_and!; try done.
    + by rewrite Hc', Hc.
    + by rewrite Hl', Hl, <- app_assoc.
Qed.

(** Once its source is cancelled, the second version calls no listener
    any more, whatever is done to it. *)
Lemma second_cancelled_step op s :
  Second.CancellationTokenSource.wf s ->
  Second.CancellationTokenSource._isCancelled s = true ->
  Second.CancellationTokenSource._isCancelled (fst (second_step bodies op s)) = true
  /\ called (snd (second_step bodies op s)) = [].
Proof.
  intros Hwf Hc. destruct op as [|l|l| | |]; simpl.
  - by rewrite second_flag_token.
  - by destruct (second_on_spec l s Hwf) as (_ & -> & _).
  - by destruct (second_dispose_registration_spec l s Hwf) as (_ & -> & _).
  - by rewrite second_cancel_again.
  - unfold Second.CancellationTokenSource.dispose.
    by rewrite second_cancel_again.
  - unfold Second.CancellationTokenSource.isCancellationRequested.
    pose proof (second_flag_token s) as Hf.
    destruct (Second.CancellationTokenSource.token bodies s) as [s' k]. simpl in *.
    split; [congruence|done].
Qed.

Lemma second_cancelled_run ops s :
  Second.CancellationTokenSource.wf s ->
  Second.CancellationTokenSource._isCancelled s = true ->
  called (snd (second_run bodies ops s)) = [].
Proof.
  unfold second_run. revert s.
  induction ops as [|op ops IH]; intros s Hwf Hc; [done|].
  cbn [run].
  destruct (second_cancelled_step op s Hwf Hc) as [Hc1 Hno].
  pose proof (wf_step op s Hwf) as Hwf1.
  destruct (second_step bodies op s) as [s1 o1]. simpl in *.
  specialize (IH s1 Hwf1 Hc1).
  destruct (run (second_step bodies) ops s1) as [s2 o2]. simpl in *.
  unfold called in *. by rewrite omap_app, Hno, IH.
Qed.

Lemma second_cancelled_stays ops s :
  Second.CancellationTokenSource.wf s ->
  Second.CancellationTokenSource._isCancelled s = true ->
  Second.CancellationTokenSource._isCancelled (fst (second_run bodies ops s))
  = true.
Proof.
  unfold second_run. revert s.
  induction ops as [|op ops IH]; intros s Hwf Hc; [done|].
  cbn [run].
  destruct (second_cancelled_step op s Hwf Hc) as [Hc1 _].
  pose proof (wf_step op s Hwf) as Hwf1.
  destruct (second_step bodies op s) as [s1 o1]. simpl in *.
  specialize (IH s1 Hwf1 Hc1).
  by destruct (run (second_step bodies) ops s1) as [s2 o2].
Qed.

(** The flag read through the token of the second version is the flag of
    the source. *)
Lemma second_isCancellationRequested s :
  Second.CancellationTokenSource.wf s ->
  snd (Second.CancellationTokenSource.isCancellationRequested bodies s)
  = Js.Bool (Second.CancellationTokenSource._isCancelled s).
Proof.
  intros Hwf. unfold Second.CancellationTokenSource.isCancellationRequested.
  pose proof (second_token_spec s Hwf) as Hs.
  destruct (Second.CancellationTokenSource.token bodies s) as [s' k]. simpl.
  destruct Hs as (_ & _ & Hk & _).
  unfold Second.MutableToken.isCancellationRequested. by rewrite Hk.
Qed.

(** In the second version the flag reads [false] on a new source and
    [true] after [cancel()], whenever the token was first obtained. *)
Lemma second_flag_false_then_true s :
  Second.CancellationTokenSource.wf s ->
  snd (Second.CancellationTokenSource.isCancellationRequested bodies
         Second.CancellationTokenSource.create) = Js.Bool false
  /\ snd (Second.CancellationTokenSource.isCancellationRequested bodies
            (fst (Second.CancellationTokenSource.cancel bodies s))) = Js.Bool true.
Proof.
  intros Hwf. split; [done|].
  pose proof (wf_step Cancel s Hwf) as Hwf'. simpl in Hwf'.
  destruct (Second.CancellationTokenSource._isCancelled s) eqn:E.
  - rewrite second_cancel_again by done. simpl.
    rewrite second_isCancellationRequested by done. by rewrite E.
  - pose proof (second_cancel_fresh s Hwf E) as Hc.
    destruct (Second.CancellationTokenSource.cancel bodies s) as [s' calls].
    simpl in *. rewrite second_isCancellationRequested by done.
    destruct Hc as (_ & _ & -> & _). done.
Qed.

(** After a [cancel()], whatever came before it and whatever is done
    afterwards, a further [cancel()] calls no listener. *)
Lemma first_cancel_after_cancel before between :
  snd (first_step bodies Cancel
         (fst (first_run bodies (before ++ Cancel :: between)
                 First.CancellationTokenSource.create))) = [].
Proof.
  unfold first_run. rewrite run_app.
  destruct (run (first_step bodies) before _) as [s0 o0]. cbn [run].
  pose proof (first_cancelled_after_cancel s0) as H1. cbn [first_step].
  destruct (First.CancellationTokenSource.cancel bodies s0) as [s1 o1].
  simpl in H1.
  pose proof (first_cancelled_stays between s1 H1) as H2.
  unfold first_run in H2.
  destruct (run (first_step bodies) between s1) as [s2 o2]. simpl in *.
  by rewrite first_cancel_again.
Qed.

Lemma second_cancel_after_cancel before between :
  snd (second_step bodies Cancel
         (fst (second_run bodies (before ++ Cancel :: between)
                 Second.CancellationTokenSource.create))) = [].
Proof.
  unfold second_run. rewrite run_app.
  pose proof (wf_run before _ wf_create) as Hwf0. unfold second_run in Hwf0.
  destruct (run (second_step bodies) before _) as [s0 o0]. cbn [run].
  pose proof (wf_step Cancel s0 Hwf0) as Hwf1.
  assert (Second.CancellationTokenSource._isCancelled
            (fst (second_step bodies Cancel s0)) = true) as H1.
  { cbn [second_step].
    destruct (Second.CancellationTokenSource._isCancelled s0) eqn:E.
    - by rewrite second_cancel_again.
    - pose proof (second_cancel_fresh s0 Hwf0 E) as Hc.
      destruct (Second.CancellationTokenSource.cancel bodies s0). simpl. tauto. }
  destruct (second_step bodies Cancel s0) as [s1 o1]. simpl in Hwf1, H1.
  pose proof (wf_run between s1 Hwf1) as Hwf2.
  pose proof (second_cancelled_stays between s1 Hwf1 H1) as H2.
  unfold second_run in Hwf2, H2.
  destruct (run (second_step bodies) between s1) as [s2 o2]. simpl in *.
  by rewrite second_cancel_again.
Qed.

End RunFacts.

(** *** The two versions side by side *)

Section Equivalence.

Import Api.




(** The two emitters hold the same listeners under their event names. *)
Lemma emitter_simulation {T} (ops : list (EmitterOp T)) e1 e2 :
  NodeEventEmitter.listeners (First.EventEmitter._eventName e1)
    (First.EventEmitter._emitter e1)
  = Second.EventEmitter.listeners e2 ->
  emitter_run first_emitter_step ops e1 = emitter_run second_emitter_step ops e2.
Proof.
  revert e1 e2. induction ops as [|op ops IH]; intros e1 e2 H; [done|].
  destruct op as [l|l|d]; simpl.
  - apply IH. unfold Second.EventEmitter.listeners in *. simpl.
    by rewrite !listeners_on, H.
  - apply IH. unfold Second.EventEmitter.listeners in *. simpl.
    by rewrite !listeners_removeListener, H.
  - rewrite (IH e1 e2 H). f_equal.
    unfold First.EventEmitter.fire, Second.EventEmitter.fire,
      NodeEventEmitter.emit, Second.EventEmitter.listeners in *.
    by rewrite H.
Qed.

End Equivalence.

End Cancellation.

(** ** The scenarios of the test suite, on both versions *)

Section TestSuite.

Import Api.

(** "should support multiple listeners" and "should only remove the
    disposed listener". *)
Example emitter_tests :
  emitter_run second_emitter_step [Event 1; Event 2; Fire 7]
    Second.EventEmitter.create = [(1, 7); (2, 7)]
  /\ emitter_run second_emitter_step
       [Event 1; Event 2; Fire 1; DisposeEvent 1; Fire 2]
       Second.EventEmitter.create = [(1, 1); (2, 1); (2, 2)]
  /\ emitter_run first_emitter_step
       [Event 1; Event 2; Fire 1; DisposeEvent 1; Fire 2]
       (fst (First.EventEmitter.create 0)) = [(1, 1); (2, 1); (2, 2)].
Proof. by vm_compute. Qed.

(** "should notify multiple listeners on cancellation" and "should only
    fire cancellation once"; the listeners of the tests count their
    calls and dispose nothing. *)
Example cancellation_tests :
  snd (second_run inert
         [Token; OnCancellationRequested 1; OnCancellationRequested 2;
          OnCancellationRequested 3; Cancel]
         Second.CancellationTokenSource.create)
    = [Called 1; Called 2; Called 3]
  /\ snd (second_run inert
            [Token; OnCancellationRequested 1; Cancel; Cancel; Cancel]
            Second.CancellationTokenSource.create) = [Called 1]
  /\ snd (first_run inert
            [Token; OnCancellationRequested 1; Cancel; Cancel; Cancel]
            First.CancellationTokenSource.create) = [Called 1].
Proof. by vm_compute. Qed.

(** "should start as not cancelled", "should be cancelled after calling
    cancel", "should cancel when disposed" and "should work when cancel is
    called before getting token" pass on the second version. *)
Example flag_tests_second :
  snd (second_run inert [Token; IsCancellationRequested]
         Second.CancellationTokenSource.create) = [Got (Js.Bool false)]
  /\ snd (second_run inert [Token; Cancel; IsCancellationRequested]
            Second.CancellationTokenSource.create) = [Got (Js.Bool true)]
  /\ snd (second_run inert [Token; Dispose; IsCancellationRequested]
            Second.CancellationTokenSource.create) = [Got (Js.Bool true)]
  /\ snd (second_run inert [Cancel; Token; IsCancellationRequested]
            Second.CancellationTokenSource.create) = [Got (Js.Bool true)].
Proof. by vm_compute. Qed.

End TestSuite.

(** ** Cancellation fires once *)

(** On a new source, listeners registered one after the other are each
    called once, in registration order, by the first [cancel()], and by no
    later one: in the second version whatever the listeners dispose, in
    the first version when they dispose nothing. *)
Lemma registered_listeners_called_once (bodies : Bodies)
    (ls : list Listener) (n : nat) :
  ((forall l, l ∈ ls -> bodies l = []) ->
   snd (Api.first_run bodies
          ((Api.OnCancellationRequested <$> ls)
           ++ Api.Cancel :: replicate n Api.Cancel)
          First.CancellationTokenSource.create) = Api.Called <$> ls)
  /\ snd (Api.second_run bodies
            ((Api.OnCancellationRequested <$> ls)
             ++ Api.Cancel :: replicate n Api.Cancel)
            Second.CancellationTokenSource.create) = Api.Called <$> ls.
Proof.
  split.
  - intros Hin. unfold Api.first_run. rewrite run_app.
    pose proof (first_run_registrations bodies ls
                  First.CancellationTokenSource.create eq_refl) as Hreg.
    unfold Api.first_run in Hreg. rewrite Hreg. cbn [Api.run Api.first_step].
    rewrite first_cancel_inert by done.
    pose proof (first_cancel_repeat bodies n
      {| First.CancellationTokenSource._cancelled := true;
         First.CancellationTokenSource._listeners := [] |} eq_refl) as Hrep.
    unfold Api.first_run in Hrep. rewrite Hrep. simpl. by rewrite app_nil_r.
  - unfold Api.second_run. rewrite run_app.
    destruct (second_run_registrations bodies ls
                Second.CancellationTokenSource.create wf_create)
      as (s' & Hrun & Hwf & Hc & Hl).
    unfold Api.second_run in Hrun. rewrite Hrun. cbn [Api.run Api.second_step].
    pose proof (second_cancel_fresh bodies s' Hwf Hc) as Hs.
    destruct (Second.CancellationTokenSource.cancel bodies s') as [s'' calls].
    destruct Hs as (-> & Hwf' & Hc' & _).
    pose proof (second_cancel_repeat bodies n s'' Hwf' Hc') as Hrep.
    unfold Api.second_run in Hrep. rewrite Hrep. simpl.
    rewrite app_nil_r, <- list_fmap_compose, Hl. done.
Qed.

(** C6, on the first version: a listener that disposes its own
    registration when it is called makes [cancel()] pass over the listener
    registered next.  With listener 1 disposing its registration and
    listener 2 registered after it, the first [cancel()] calls listener 1
    only: the loop of lines 45-47 walks the array that the Disposable
    splices (lines 32-34), listener 2 moves to the index just visited, and
    line 49 then drops it, so that no later [cancel()] calls it either.
    The second version calls both, each once.  What the claim says of
    later [cancel()] calls holds of both versions, whatever the listeners
    dispose and whatever is done in between: they call no listener. *)
Theorem self_disposing_listener_hides_the_next :
  (let bodies : Bodies := fun l => if bool_decide (l = 1) then [1] else [] in
   let ops := [Api.Token; Api.OnCancellationRequested 1;
               Api.OnCancellationRequested 2; Api.Cancel; Api.Cancel] in
   snd (Api.first_run bodies ops First.CancellationTokenSource.create)
     = [Api.Called 1]
   /\ snd (Api.second_run bodies ops Second.CancellationTokenSource.create)
      = [Api.Called 1; Api.Called 2])
  /\ forall (bodies : Bodies) (before between : list Api.Op),
       snd (Api.first_step bodies Api.Cancel
              (fst (Api.first_run bodies (before ++ Api.Cancel :: between)
                      First.CancellationTokenSource.create))) = []
       /\ snd (Api.second_step bodies Api.Cancel
                 (fst (Api.second_run bodies (before ++ Api.Cancel :: between)
                         Second.CancellationTokenSource.create))) = [].
Proof.
  split; [split; by vm_compute|].
  intros bodies before between. split.
  - apply first_cancel_after_cancel.
  - apply second_cancel_after_cancel.
Qed.

(** ** A listener attached after cancellation *)

(** C7, on the second version: after [source.cancel()], a listener
    attached through [token.onCancellationRequested] is not called; it is
    put on the emitter, and nothing done to the source afterwards calls
    it.  The first version calls it at once
    ([first_late_listener_called]). *)
Theorem late_listener_second_version (bodies : Bodies) (ops : list Api.Op) :
  let s := fst (Api.second_run bodies [Api.Token; Api.Cancel]
                  Second.CancellationTokenSource.create) in
  let s' := Second.CancellationTokenSource.onCancellationRequested bodies 1 s in
  Api.second_step bodies (Api.OnCancellationRequested 1) s = (s', [])
  /\ Second.CancellationTokenSource.listeners s' = [1]
  /\ Api.called (snd (Api.second_run bodies ops s')) = []
  /\ snd (Api.first_run bodies
            [Api.Token; Api.Cancel; Api.OnCancellationRequested 1]
            First.CancellationTokenSource.create) = [Api.Called 1].
Proof.
  intros s s'. split_and!; try by vm_compute.
  apply second_cancelled_run; by vm_compute.
Qed.

(** ** Reading the flag *)

(** C8, on the first version: [token.isCancellationRequested] reads
    [_cancelled] off the token literal, which has no such property; the
    read gives [undefined] before [cancel()] and after it.  The second
    version gives [false] and [true] ([second_flag_false_then_true]). *)
Theorem first_version_flag_reads_undefined (bodies : Bodies) :
  snd (Api.first_run bodies [Api.Token; Api.IsCancellationRequested]
         First.CancellationTokenSource.create) = [Api.Got Js.Undefined]
  /\ snd (Api.first_run bodies
            [Api.Token; Api.Cancel; Api.IsCancellationRequested]
            First.CancellationTokenSource.create) = [Api.Got Js.Undefined]
  /\ snd (Api.first_run bodies
            [Api.Cancel; Api.Token; Api.IsCancellationRequested]
            First.CancellationTokenSource.create) = [Api.Got Js.Undefined].
Proof. by vm_compute. Qed.

(** ** Are the two versions interchangeable? *)




(** ** Strings *)

Section StringFacts.

Lemma substring_all (r : string) : String.substring 0 (String.length r) r = r.
Proof. induction r as [|c r IH]; [done|]. simpl. by rewrite IH. Qed.

Lemma prefix_split (p a : string) :
  String.prefix p a = true -> exists r, a = p +:+ r.
Proof.
  revert a. induction p as [|c p IH]; intros a H.
  - by exists a.
  - destruct a as [|c' a]; [done|]. simpl in H.
    destruct (Ascii.ascii_dec c c') as [->|]; [|done].
    destruct (IH a H) as [r ->]. by exists r.
Qed.

Lemma slice_append (p r : string) : Js.slice (String.length p) (p +:+ r) = r.
Proof.
  unfold Js.slice. induction p as [|c p IH]; simpl.
  - rewrite Nat.sub_0_r. apply substring_all.
  - exact IH.
Qed.

Lemma append_eq_self (p r : string) : p +:+ r = p -> r = EmptyString.
Proof.
  induction p as [|c p IH]; [done|]. intros H. apply IH.
  change (String c (p +:+ r) = String c p) in H. by injection H.
Qed.

Lemma append_empty (p : string) : p +:+ EmptyString = p.
Proof.
  induction p as [|c p IH]; [done|].
  change (String c (p +:+ EmptyString) = String c p). by rewrite IH.
Qed.

(** An argument that starts with a prefix has nothing after it exactly
    when it is the prefix. *)
Lemma slice_empty_iff (p a : string) :
  Js.startsWith p a = true ->
  Js.slice (String.length p) a = EmptyString <-> a = p.
Proof.
  intros H. destruct (prefix_split p a H) as [r ->].
  rewrite slice_append. split.
  - intros ->. apply append_empty.
  - apply append_eq_self.
Qed.

End StringFacts.

(** ** The spawner *)

Section SpawnFacts.

Import Spawn.

Context {num : Type} (h : Host num) (storagePath : string).

Implicit Types p : ILaunchParams.t.

(** The user-data-dir argument is never taken for the debugging port. *)
Lemma find_port_skips_user_data_dir (d : string) (l : list string) :
  Js.find (Js.startsWith debugPortPrefix) (("--user-data-dir=" +:+ d) :: l)
  = Js.find (Js.startsWith debugPortPrefix) l.
Proof. done. Qed.

(** A failure to resolve the executable ends the launch before anything is
    spawned, and is what the launch throws. *)
Lemma launch_throws p e :
  findBrowserPath h (ILaunchParams.type p)
    (Params.runtimeExecutable (ILaunchParams.params p)) = Throw e ->
  launch h storagePath p = ([], Throw e).
Proof. intros H. unfold launch. by rewrite H. Qed.

(** A launch that resolves its executable spawns exactly one process, with
    that executable as the command, and returns a Target over it. *)
Lemma launch_spawns p binary :
  findBrowserPath h (ILaunchParams.type p)
    (Params.runtimeExecutable (ILaunchParams.params p)) = Return binary ->
  exists child tgt,
    launch h storagePath p = ([child], Return tgt)
    /\ child_of tgt = child
    /\ command child = binary.
Proof.
  intros H. unfold launch. rewrite H.
  destruct (Js.slice _ <$> Js.find _ _) as [port|]; [|by eauto].
  destruct (bool_decide (port = EmptyString)); by eauto.
Qed.

End SpawnFacts.

(** ** Launching with a WSL descriptor *)




(** ** Pipe or socket *)

(** An argument that is the port prefix with nothing after it starts with
    the prefix, and yet the launch is pipe-backed.  And a launch whose
    executable cannot be resolved returns no Target, with no port argument
    among its arguments. *)
Lemma empty_port_argument_launches_piped :
  (let p := Example.launch_params "/usr/bin/chromium" (Spawn.Flag false)
              ["--remote-debugging-port="] None in
   existsb (Js.startsWith Spawn.debugPortPrefix) (Spawn.ILaunchParams.browserArgs p)
     = true
   /\ exists child,
        Spawn.launch Example.host "/state" p
          = ([child], Spawn.Return (Spawn.PipedTarget child))
        /\ Spawn.stdio_at (Spawn.stdio (Spawn.options child)) 3 = Some Spawn.pipe
        /\ Spawn.stdio_at (Spawn.stdio (Spawn.options child)) 4 = Some Spawn.pipe)
  /\ (let p := Example.launch_params "beta" (Spawn.Flag false) ["about:blank"] None in
      existsb (Js.startsWith Spawn.debugPortPrefix) (Spawn.ILaunchParams.browserArgs p)
        = false
      /\ forall child,
           snd (Spawn.launch Example.host "/state" p)
           <> Spawn.Return (Spawn.PipedTarget child)).
Proof.
  split.
  - split; [reflexivity|]. eexists. split; [reflexivity|]. by vm_compute.
  - split; [reflexivity|]. intros child. vm_compute. discriminate.
Qed.

(** C4 (as amended): a launch that resolves its executable spawns one
    child.  When no element of [browserArgs] starts with
    [--remote-debugging-port=], or the first such element is that prefix
    with nothing after it, the Target is pipe-backed and descriptors 3 and
    4 of the child are pipes.  Otherwise the child is spawned with stdio
    ignored and the Target is socket-backed, for [Number] of what follows
    the prefix in the first such element. *)
Theorem launch_target_kind {num} (h : Spawn.Host num) (storagePath : string)
    (p : Spawn.ILaunchParams.t) (binary : string) :
  Spawn.findBrowserPath h (Spawn.ILaunchParams.type p)
    (Spawn.Params.runtimeExecutable (Spawn.ILaunchParams.params p))
    = Spawn.Return binary ->
  exists child,
    fst (Spawn.launch h storagePath p) = [child]
    /\ Spawn.command child = binary
    /\ match Js.find (Js.startsWith Spawn.debugPortPrefix)
               (Spawn.ILaunchParams.browserArgs p) with
       | Some a =>
           if bool_decide (a = Spawn.debugPortPrefix) then
             snd (Spawn.launch h storagePath p)
               = Spawn.Return (Spawn.PipedTarget child)
             /\ Spawn.stdio_at (Spawn.stdio (Spawn.options child)) 3 = Some Spawn.pipe
             /\ Spawn.stdio_at (Spawn.stdio (Spawn.options child)) 4 = Some Spawn.pipe
           else
             snd (Spawn.launch h storagePath p)
               = Spawn.Return
                   (Spawn.ServerTarget child
                      (Spawn.Number h
                         (Js.slice (String.length Spawn.debugPortPrefix) a)))
             /\ Spawn.stdio (Spawn.options child) = Spawn.StdioAll Spawn.ignore
       | None =>
           snd (Spawn.launch h storagePath p)
             = Spawn.Return (Spawn.PipedTarget child)
           /\ Spawn.stdio_at (Spawn.stdio (Spawn.options child)) 3 = Some Spawn.pipe
           /\ Spawn.stdio_at (Spawn.stdio (Spawn.options child)) 4 = Some Spawn.pipe
       end.
Proof.
  intros Hb. unfold Spawn.launch. rewrite Hb.
  assert (Js.find (Js.startsWith Spawn.debugPortPrefix)
            match Spawn.getUserDataDir h storagePath p with
            | Some d => ("--user-data-dir=" +:+ d) :: Spawn.ILaunchParams.browserArgs p
            | None => Spawn.ILaunchParams.browserArgs p
            end
          = Js.find (Js.startsWith Spawn.debugPortPrefix)
              (Spawn.ILaunchParams.browserArgs p)) as ->.
  { by destruct (Spawn.getUserDataDir h storagePath p). }
  destruct (Js.find _ (Spawn.ILaunchParams.browserArgs p)) as [a|] eqn:Ef;
    cbn [fmap option_fmap option_map]; [|by eexists].
  apply find_some in Ef as [_ Hpre].
  pose proof (slice_empty_iff _ _ Hpre) as Hiff.
  destruct (decide (a = Spawn.debugPortPrefix)) as [Ha|Ha].
  - rewrite (bool_decide_eq_true_2 (a = _)) by done.
    rewrite bool_decide_eq_true_2 by (by apply Hiff). by eexists.
  - rewrite (bool_decide_eq_false_2 (a = _)) by done.
    rewrite bool_decide_eq_false_2 by (by rewrite Hiff). by eexists.
Qed.

Lemma launch_target_kind_witness :
  let p := Example.launch_params "/usr/bin/chromium" (Spawn.Flag true)
             ["about:blank"; "--remote-debugging-port=9222"] None in
  exists child,
    fst (Spawn.launch Example.host "/state" p) = [child]
    /\ Spawn.command child = "/usr/bin/chromium"
    /\ snd (Spawn.launch Example.host "/state" p)
         = Spawn.Return (Spawn.ServerTarget child (Some 9222%N))
    /\ Spawn.stdio (Spawn.options child) = Spawn.StdioAll Spawn.ignore.
Proof.
  intros p.
  destruct (launch_target_kind Example.host "/state" p "/usr/bin/chromium")
    as (child & Hl & Hc & Hk); [reflexivity|].
  exists child. split; [exact Hl|]. split; [exact Hc|]. exact Hk.
Defined.

(** ** Resolving the executable *)

Section Resolution.

Import Spawn.

Context {num : Type} (h : Host num).

Lemma findBrowserPath_verbatim type rx :
  rx <> "*" -> isQuality h rx = false -> findBrowserPath h type rx = Return rx.
Proof.
  intros Hstar Hq. unfold findBrowserPath.
  by rewrite bool_decide_eq_false_2, Hq.
Qed.

Lemma has_finder_in_finders type :
  has_finder type = true -> in_finders type = true.
Proof.
  unfold has_finder, in_finders. intros H%bool_decide_eq_true.
  apply bool_decide_eq_true, elem_of_app. by left.
Qed.

Lemma has_finder_names type :
  type ∈ ["edge"; "chrome"; "firefox"] <-> has_finder type = true.
Proof. unfold has_finder. by rewrite bool_decide_eq_true. Qed.

(** With a finder for the type, resolution goes on to line 42. *)
Lemma findBrowserPath_with_finder type rx :
  has_finder type = true ->
  (rx = "*" \/ isQuality h rx = true) ->
  findBrowserPath h type rx =
    let available := findAll h type in
    let resolved :=
      if bool_decide (rx = "*") then
        match Js.find (fun r => bool_decide (IExecutable.quality r = "stable"))
                      available with
        | Some r => Some r
        | None => head available
        end
      else
        Js.find (fun r => bool_decide (IExecutable.quality r = rx)) available in
    match resolved with
    | None =>
        if bool_decide (rx = "stable") && bool_decide (length available = 0)
        then Throw (mkUserError (noInstallationMessage type))
        else Throw (mkUserError (versionNotFoundMessage h type rx available))
    | Some r => Return (IExecutable.path r)
    end.
Proof.
  intros Hf Hrx. unfold findBrowserPath.
  rewrite (has_finder_in_finders _ Hf), Hf.
  destruct Hrx as [-> | ->]; [done|].
  by rewrite andb_false_r.
Qed.

(** Without a finder for the type, resolution of [*] or of a quality
    name throws at line 39 or at line 42. *)
Lemma findBrowserPath_without_finder type rx :
  has_finder type = false ->
  (rx = "*" \/ isQuality h rx = true) ->
  findBrowserPath h type rx =
    Throw (if in_finders type then TypeError
           else mkUserError (notSupportedMessage type)).
Proof.
  intros Hf Hrx. unfold findBrowserPath. rewrite Hf.
  assert (negb (bool_decide (rx = "*")) && negb (isQuality h rx) = false) as ->.
  { destruct Hrx as [-> | ->]; [done|]. by rewrite andb_false_r. }
  by destruct (in_finders type).
Qed.

Lemma findBrowserPath_star_stable type r :
  has_finder type = true ->
  Js.find (fun r => bool_decide (IExecutable.quality r = "stable"))
    (findAll h type) = Some r ->
  findBrowserPath h type "*" = Return (IExecutable.path r).
Proof.
  intros Hh Hf. rewrite findBrowserPath_with_finder by auto.
  simpl. by rewrite Hf.
Qed.

Lemma findBrowserPath_star_first type r rest :
  has_finder type = true ->
  Js.find (fun r => bool_decide (IExecutable.quality r = "stable"))
    (findAll h type) = None ->
  findAll h type = r :: rest ->
  findBrowserPath h type "*" = Return (IExecutable.path r).
Proof.
  intros Hh Hf Ha. rewrite findBrowserPath_with_finder by auto.
  simpl. by rewrite Hf, Ha.
Qed.

Lemma findBrowserPath_quality_missing type rx :
  has_finder type = true ->
  rx <> "*" -> isQuality h rx = true ->
  Js.find (fun r => bool_decide (IExecutable.quality r = rx)) (findAll h type)
    = None ->
  findBrowserPath h type rx =
    Throw (mkUserError
      (if bool_decide (rx = "stable") && bool_decide (length (findAll h type) = 0)
       then noInstallationMessage type
       else versionNotFoundMessage h type rx (findAll h type))).
Proof.
  intros Hh Hstar Hq Hf. rewrite findBrowserPath_with_finder by auto.
  cbv zeta. rewrite (bool_decide_eq_false_2 (rx = "*")) by done.
  rewrite Hf. by destruct (_ && _).
Qed.

End Resolution.

(** C5: the executable of a launch.  A [runtimeExecutable] that is
    neither [*] nor a quality name is the command spawned, as given.  For
    [*] and a browser type that has a finder the command is the path of
    the first stable installation found, and when there is none, of the
    first installation found.  For a quality name with no installation of
    that quality the launch throws a UserError before anything is
    spawned, and no Target is returned; its message, written out below,
    names the browser type and the remedy: for a missing stable browser
    on a machine with no installation at all it says that none was found,
    otherwise it names the version asked for and lists those discovered;
    and for a browser type that is no key of the finders, own or
    inherited, it says that the type is not supported. *)
Theorem executable_resolution {num} (h : Spawn.Host num) (storagePath : string)
    (p : Spawn.ILaunchParams.t) :
  let rx := Spawn.Params.runtimeExecutable (Spawn.ILaunchParams.params p) in
  let type := Spawn.ILaunchParams.type p in
  let available := Spawn.findAll h type in
  let q := String (Ascii.ascii_of_nat 34) EmptyString in
  let spawns binary :=
    exists child tgt,
      Spawn.launch h storagePath p = ([child], Spawn.Return tgt)
      /\ Spawn.child_of tgt = child
      /\ Spawn.command child = binary in
  let fails message :=
    Spawn.launch h storagePath p
    = ([], Spawn.Throw (Spawn.mkUserError message)) in
  (rx <> "*" -> Spawn.isQuality h rx = false -> spawns rx)
  /\ (rx = "*" -> type ∈ ["edge"; "chrome"; "firefox"] ->
      forall r,
        Js.find (fun r => bool_decide (Spawn.IExecutable.quality r = "stable"))
          available = Some r ->
        spawns (Spawn.IExecutable.path r))
  /\ (rx = "*" -> type ∈ ["edge"; "chrome"; "firefox"] ->
      Js.find (fun r => bool_decide (Spawn.IExecutable.quality r = "stable"))
        available = None ->
      forall r rest, available = r :: rest -> spawns (Spawn.IExecutable.path r))
  /\ (rx <> "*" -> Spawn.isQuality h rx = true ->
      type ∈ ["edge"; "chrome"; "firefox"] ->
      Js.find (fun r => bool_decide (Spawn.IExecutable.quality r = rx)) available
        = None ->
      if bool_decide (rx = "stable") && bool_decide (length available = 0)
      then
        fails
          ("Unable to find a " +:+ type +:+
           " installation on your system. Try installing it, or providing an absolute path to the browser in the " +:+
           q +:+ "runtimeExecutable" +:+ q +:+ " in your launch.json.")
      else
        fails
          ("Unable to find " +:+ type +:+ " version " +:+ rx +:+
           ". Available auto-discovered versions are: " +:+
           Spawn.JSON_stringify h available +:+
           ". You can set the " +:+ q +:+ "runtimeExecutable" +:+ q +:+
           " in your launch.json to one of these, or provide an absolute path to the browser executable."))
  /\ (rx <> "*" -> Spawn.isQuality h rx = true ->
      type ∉ ["edge"; "chrome"; "firefox"] ->
      type ∉ Spawn.inherited_keys ->
      fails ("Browser type " +:+ q +:+ type +:+ q +:+ " is not supported.")).
Proof.
  intros rx type available q spawns fails. split_and!.
  - intros Hstar Hq. apply launch_spawns.
    by apply findBrowserPath_verbatim.
  - intros Hstar Hin%has_finder_names r Hf. apply launch_spawns.
    fold rx. rewrite Hstar. by apply findBrowserPath_star_stable.
  - intros Hstar Hin%has_finder_names Hf r rest Ha. apply launch_spawns.
    fold rx. rewrite Hstar. by eapply findBrowserPath_star_first.
  - intros Hstar Hq Hin%has_finder_names Hf.
    pose proof (findBrowserPath_quality_missing h type rx Hin Hstar Hq Hf) as He.
    fold available in He.
    destruct (bool_decide (rx = "stable") && bool_decide (length available = 0));
      by apply launch_throws.
  - intros Hstar Hq Hown Hinherited. apply launch_throws. fold rx type.
    rewrite findBrowserPath_without_finder
      by (auto; by apply bool_decide_eq_false).
    unfold Spawn.in_finders. rewrite bool_decide_eq_false_2; [done|].
    intros [?|?]%elem_of_app; tauto.
Qed.

Lemma executable_resolution_witness :
  let q := String (Ascii.ascii_of_nat 34) EmptyString in
  (exists child tgt,
     Spawn.launch Example.host "/state"
       (Example.launch_params "/usr/bin/chromium" (Spawn.Flag false) [] None)
       = ([child], Spawn.Return tgt)
     /\ Spawn.child_of tgt = child
     /\ Spawn.command child = "/usr/bin/chromium")
  /\ (exists child tgt,
        Spawn.launch (Example.host_with [Example.canary; Example.stable]) "/state"
          (Example.launch_params "*" (Spawn.Flag false) [] None)
          = ([child], Spawn.Return tgt)
        /\ Spawn.child_of tgt = child
        /\ Spawn.command child = "/opt/chrome/chrome")
  /\ (exists child tgt,
        Spawn.launch (Example.host_with [Example.canary]) "/state"
          (Example.launch_params "*" (Spawn.Flag false) [] None)
          = ([child], Spawn.Return tgt)
        /\ Spawn.child_of tgt = child
        /\ Spawn.command child = "/opt/chrome-canary/chrome")
  /\ Spawn.launch Example.host "/state"
       (Example.launch_params "beta" (Spawn.Flag false) [] None)
     = ([], Spawn.Throw (Spawn.mkUserError
         ("Unable to find chrome version beta. Available auto-discovered versions are: []. You can set the "
          +:+ q +:+ "runtimeExecutable" +:+ q +:+
          " in your launch.json to one of these, or provide an absolute path to the browser executable.")))
  /\ Spawn.launch Example.host "/state"
       (Example.launch_params "stable" (Spawn.Flag false) [] None)
     = ([], Spawn.Throw (Spawn.mkUserError
         ("Unable to find a chrome installation on your system. Try installing it, or providing an absolute path to the browser in the "
          +:+ q +:+ "runtimeExecutable" +:+ q +:+ " in your launch.json.")))
  /\ Spawn.launch Example.host "/state"
       (Spawn.ILaunchParams.with_type "safari"
          (Example.launch_params "beta" (Spawn.Flag false) [] None))
     = ([], Spawn.Throw (Spawn.mkUserError
         ("Browser type " +:+ q +:+ "safari" +:+ q +:+ " is not supported."))).
Proof.
  intros q. split_and!.
  - pose proof (executable_resolution Example.host "/state"
      (Example.launch_params "/usr/bin/chromium" (Spawn.Flag false) [] None)) as W.
    cbv zeta in W. destruct W as (W & _).
    apply W; [discriminate | reflexivity].
  - pose proof (executable_resolution
      (Example.host_with [Example.canary; Example.stable]) "/state"
      (Example.launch_params "*" (Spawn.Flag false) [] None)) as W.
    cbv zeta in W. destruct W as (_ & W & _).
    apply (W eq_refl ltac:(by apply (bool_decide_unpack _)) Example.stable).
    reflexivity.
  - pose proof (executable_resolution (Example.host_with [Example.canary]) "/state"
      (Example.launch_params "*" (Spawn.Flag false) [] None)) as W.
    cbv zeta in W. destruct W as (_ & _ & W & _).
    apply (W eq_refl ltac:(by apply (bool_decide_unpack _)) eq_refl
             Example.canary []).
    reflexivity.
  - pose proof (executable_resolution Example.host "/state"
      (Example.launch_params "beta" (Spawn.Flag false) [] None)) as W.
    cbv zeta in W. destruct W as (_ & _ & _ & W & _).
    apply W; [discriminate | reflexivity | by apply (bool_decide_unpack _)
             | reflexivity].
  - pose proof (executable_resolution Example.host "/state"
      (Example.launch_params "stable" (Spawn.Flag false) [] None)) as W.
    cbv zeta in W. destruct W as (_ & _ & _ & W & _).
    apply W; [discriminate | reflexivity | by apply (bool_decide_unpack _)
             | reflexivity].
  - pose proof (executable_resolution Example.host "/state"
      (Spawn.ILaunchParams.with_type "safari"
         (Example.launch_params "beta" (Spawn.Flag false) [] None))) as W.
    cbv zeta in W. destruct W as (_ & _ & _ & _ & W).
    apply W; [discriminate | reflexivity | |];
      apply (bool_decide_unpack _); vm_compute; exact I.
Defined.

(** ** The user data directory *)

(** With a debugging port among the arguments, the first argument of the
    spawned command line is the port prefix that [launch] puts in front,
    not the user-data-dir argument.  And a launch whose executable cannot
    be resolved spawns nothing, so that no command line has the
    argument. *)
Lemma user_data_dir_is_not_first :
  (let p := Example.launch_params "/usr/bin/chromium" (Spawn.Flag true)
              ["--remote-debugging-port=9222"] None in
   exists child,
     fst (Spawn.launch Example.host "/state" p) = [child]
     /\ Spawn.args child
        = ["--remote-debugging-port="; "--user-data-dir=/state/.profile";
           "--remote-debugging-port=9222"]
     /\ head (Spawn.args child) <> Some "--user-data-dir=/state/.profile")
  /\ fst (Spawn.launch Example.host "/state"
            (Example.launch_params "beta" (Spawn.Flag true) ["about:blank"] None))
     = [].
Proof.
  split; [|reflexivity]. eexists. split; [reflexivity|]. by vm_compute.
Qed.

(** C10 (as amended): in a launch that resolves its executable, when
    [userDataDir] is [false] the arguments [launch] puts in front of
    [browserArgs] include no [--user-data-dir] argument; otherwise
    [--user-data-dir=<dir>] stands directly in front of [browserArgs],
    where [<dir>] is the requested directory when [userDataDir] is a
    string naming an existing path, and otherwise [storagePath] joined
    with [.headless-profile] when [browserArgs] contains [--headless] and
    with [.profile] when it does not.  In a pipe-backed launch nothing
    stands in front of that argument. *)
Theorem user_data_dir_argument {num} (h : Spawn.Host num) (storagePath : string)
    (p : Spawn.ILaunchParams.t) (binary : string) :
  Spawn.findBrowserPath h (Spawn.ILaunchParams.type p)
    (Spawn.Params.runtimeExecutable (Spawn.ILaunchParams.params p))
    = Spawn.Return binary ->
  let browserArgs := Spawn.ILaunchParams.browserArgs p in
  let defaultDir :=
    Spawn.join h storagePath
      (if Js.includes "--headless" browserArgs
       then ".headless-profile" else ".profile") in
  exists child tgt front,
    Spawn.launch h storagePath p = ([child], Spawn.Return tgt)
    /\ Spawn.child_of tgt = child
    /\ Forall (fun a => Js.startsWith "--user-data-dir" a = false) front
    /\ (forall c, tgt = Spawn.PipedTarget c -> front = [])
    /\ Spawn.args child =
         front ++
         match Spawn.Params.userDataDir (Spawn.ILaunchParams.params p) with
         | Spawn.Flag false => browserArgs
         | Spawn.Flag true => ("--user-data-dir=" +:+ defaultDir) :: browserArgs
         | Spawn.Dir d =>
             ("--user-data-dir=" +:+
                (if Spawn.exists_ h d then d else defaultDir)) :: browserArgs
         end.
Proof.
  intros Hb browserArgs defaultDir. unfold Spawn.launch. rewrite Hb.
  assert (match Spawn.getUserDataDir h storagePath p with
          | Some d => ("--user-data-dir=" +:+ d) :: browserArgs
          | None => browserArgs
          end
          = match Spawn.Params.userDataDir (Spawn.ILaunchParams.params p) with
            | Spawn.Flag false => browserArgs
            | Spawn.Flag true => ("--user-data-dir=" +:+ defaultDir) :: browserArgs
            | Spawn.Dir d =>
                ("--user-data-dir=" +:+
                   (if Spawn.exists_ h d then d else defaultDir)) :: browserArgs
            end) as Hargs.
  { unfold Spawn.getUserDataDir.
    destruct (Spawn.Params.userDataDir _) as [[|]|d]; try done.
    by destruct (Spawn.exists_ h d). }
  fold browserArgs. rewrite Hargs.
  destruct (Js.slice _ <$> Js.find _ _) as [port|].
  - destruct (bool_decide (port = EmptyString)).
    + eexists _, _, []. split_and!; try done.
    + destruct (negb (Js.includes _ _)).
      * eexists _, _, [Spawn.debugPipeArg].
        split_and!; try done. by repeat constructor.
      * eexists _, _, []. split_and!; try done.
  - eexists _, _, []. split_and!; try done.
Qed.

Lemma user_data_dir_argument_witness :
  let p := Example.launch_params "/usr/bin/chromium" (Spawn.Dir "/tmp/profile")
             ["--headless"; "about:blank"] None in
  exists child tgt front,
    Spawn.launch Example.host "/state" p = ([child], Spawn.Return tgt)
    /\ Spawn.child_of tgt = child
    /\ Forall (fun a => Js.startsWith "--user-data-dir" a = false) front
    /\ (forall c, tgt = Spawn.PipedTarget c -> front = [])
    /\ Spawn.args child
       = front ++ ["--user-data-dir=/state/.headless-profile";
                   "--headless"; "about:blank"].
Proof.
  intros p.
  exact (user_data_dir_argument Example.host "/state" p "/usr/bin/chromium"
           eq_refl).
Defined.

(** ** The session registry *)

Section RegistryFacts.

Import Registry.

Context {Params Handle Transport Error : Type}.
Variable spawn : Params -> (Handle * Transport) + Error.

Implicit Types r : Registry.t Params Handle Transport.

Lemma create_registered id p r tg :
  targets r !! id = Some tg -> create spawn id p r = (r, inr (AlreadyLive id)).
Proof. intros H. unfold create. by rewrite H. Qed.

Lemma create_succeeds id p r r' :
  create spawn id p r = (r', inl tt) ->
  targets r !! id = None
  /\ exists hd tr,
       spawn p = inl (hd, tr)
       /\ r' = {| targets := <[id := {| process := hd; transport := tr |}]> (targets r);
                  spawns := spawns r ++ [p];
                  stops := stops r |}.
Proof.
  unfold create. destruct (targets r !! id); [done|].
  destruct (spawn p) as [[hd tr]|e]; [|done].
  intros [= <-]. eauto.
Qed.

(** A failed spawn registers nothing. *)
Lemma create_spawn_fails id p r e :
  targets r !! id = None -> spawn p = inr e ->
  snd (create spawn id p r) = inr (SpawnFailed e)
  /\ targets (fst (create spawn id p r)) = targets r.
Proof. intros H He. unfold create. by rewrite H, He. Qed.

(** An operation that is neither a removal of [id] nor [disposeAll]
    leaves the entry of [id] as it is. *)
Lemma step_keeps id op r tg :
  keeps id op = true ->
  targets r !! id = Some tg ->
  targets (step spawn op r) !! id = Some tg.
Proof.
  intros Hk H. destruct op as [id' p'| id' | | id']; simpl in *; try done.
  - unfold create. destruct (targets r !! id') eqn:E; [done|].
    assert (id' <> id) by congruence.
    destruct (spawn p') as [[hd tr]|e]; simpl; [|done].
    by rewrite lookup_insert_ne.
  - apply negb_true_iff, bool_decide_eq_false in Hk.
    unfold destroy. destruct (targets r !! id'); simpl; [|done].
    by rewrite lookup_delete_ne.
  - apply negb_true_iff, bool_decide_eq_false in Hk.
    by rewrite lookup_delete_ne.
Qed.

Lemma run_keeps id ops r tg :
  forallb (keeps id) ops = true ->
  targets r !! id = Some tg ->
  targets (run spawn ops r) !! id = Some tg.
Proof.
  revert r. induction ops as [|op ops IH]; intros r Hk H; [done|].
  simpl in Hk. apply andb_true_iff in Hk as [Hk1 Hk2].
  simpl. apply IH; [done|]. by apply step_keeps.
Qed.

Lemma destroy_unregistered id r : targets r !! id = None -> destroy id r = r.
Proof. intros H. unfold destroy. by rewrite H. Qed.

Lemma destroy_registered id r tg :
  targets r !! id = Some tg ->
  destroy id r = {| targets := delete id (targets r);
                    spawns := spawns r;
                    stops := stops r ++ [tg] |}.
Proof. intros H. unfold destroy. by rewrite H. Qed.

Lemma destroy_removes id r : targets (destroy id r) !! id = None.
Proof.
  unfold destroy. destruct (targets r !! id) eqn:E; [|done].
  simpl. apply lookup_delete_eq.
Qed.

(** [destroy] touches no other identifier. *)
Lemma destroy_other id id' r :
  id <> id' -> targets (destroy id r) !! id' = targets r !! id'.
Proof.
  intros H. unfold destroy. destruct (targets r !! id); [|done].
  simpl. by rewrite lookup_delete_ne.
Qed.

End RegistryFacts.

(** C1: once [create(id, p)] has succeeded, and as long as nothing removes
    the entry of [id] (no [destroy(id)], no [disposeAll()], no exit of the
    process), the Target spawned for [p] is the one registered under [id],
    and a further [create(id, p')] is rejected as already live and leaves
    the registry as it is: nothing is spawned and the registered Target is
    unchanged. *)
Theorem create_twice_rejected {Params Handle Transport Error : Type}
    (spawn : Params -> (Handle * Transport) + Error)
    (id : Z) (p p' : Params) (r r1 : Registry.t Params Handle Transport)
    (ops : list (Registry.Op Params)) :
  Registry.create spawn id p r = (r1, inl tt) ->
  forallb (Registry.keeps id) ops = true ->
  let r2 := Registry.run spawn ops r1 in
  exists hd tr,
    spawn p = inl (hd, tr)
    /\ Registry.targets r2 !! id
       = Some {| Registry.process := hd; Registry.transport := tr |}
    /\ Registry.create spawn id p' r2 = (r2, inr (Registry.AlreadyLive id))
    /\ Registry.spawns (fst (Registry.create spawn id p' r2)) = Registry.spawns r2.
Proof.
  intros Hc Hops r2.
  apply create_succeeds in Hc as (_ & hd & tr & Hs & ->).
  assert (Registry.targets r2 !! id
          = Some {| Registry.process := hd; Registry.transport := tr |}) as H2.
  { apply run_keeps; [done|]. simpl. apply lookup_insert_eq. }
  exists hd, tr. split_and!; try done.
  - by eapply create_registered.
  - by erewrite create_registered.
Qed.

Lemma create_twice_rejected_witness :
  let spawn := fun p : string => inl (String.length p, "pipe") : (nat * string) + string in
  let r1 := fst (Registry.create spawn 7 "chrome" Registry.empty) in
  let r2 := Registry.run spawn
              [Registry.Create 8 "edge"; Registry.Destroy 8;
               Registry.Create 7 "firefox"; Registry.Closed 9] r1 in
  exists hd tr,
    spawn "chrome" = inl (hd, tr)
    /\ Registry.targets r2 !! 7%Z
       = Some {| Registry.process := hd; Registry.transport := tr |}
    /\ Registry.create spawn 7 "edge" r2 = (r2, inr (Registry.AlreadyLive 7))
    /\ Registry.spawns (fst (Registry.create spawn 7 "edge" r2)) = Registry.spawns r2.
Proof.
  intros spawn r1 r2.
  apply (create_twice_rejected spawn 7 "chrome" "edge" Registry.empty r1
           [Registry.Create 8 "edge"; Registry.Destroy 8;
            Registry.Create 7 "firefox"; Registry.Closed 9]);
    reflexivity.
Defined.

(** C2: [destroy(id)] returns normally for every registry.  On an
    unregistered [id] it changes nothing; on a registered one it calls
    [stop()] of the Target and removes the entry; a second [destroy(id)]
    changes nothing more.  The [/kill] route answers 200 with
    [{ success: true }] whenever the request body yields a launch
    identifier, registered or not. *)
Theorem destroy_idempotent {Params Handle Transport : Type}
    (id : Z) (r : Registry.t Params Handle Transport)
    (parse_launchId : string -> string + Z) (request_body : string) :
  (Registry.targets r !! id = None -> Registry.destroy id r = r)
  /\ (forall tg,
        Registry.targets r !! id = Some tg ->
        Registry.destroy id r
        = {| Registry.targets := delete id (Registry.targets r);
             Registry.spawns := Registry.spawns r;
             Registry.stops := Registry.stops r ++ [tg] |})
  /\ Registry.targets (Registry.destroy id r) !! id = None
  /\ Registry.destroy id (Registry.destroy id r) = Registry.destroy id r
  /\ (parse_launchId request_body = inr id ->
      Cli.kill parse_launchId request_body r
      = (Registry.destroy id r, {| Cli.status := 200; Cli.body := Cli.Success |})).
Proof.
  split_and!.
  - apply destroy_unregistered.
  - intros tg. apply destroy_registered.
  - apply destroy_removes.
  - apply destroy_unregistered, destroy_removes.
  - intros H. unfold Cli.kill. by rewrite H.
Qed.

Lemma destroy_idempotent_witness :
  let spawn := fun p : string => inl (String.length p, "pipe") : (nat * string) + string in
  let r := fst (Registry.create spawn 7 "chrome" Registry.empty) in
  let parse := fun _ : string => inr 7%Z : string + Z in
  Registry.destroy 8 r = r
  /\ Registry.destroy 7 r
     = {| Registry.targets := ∅;
          Registry.spawns := ["chrome"];
          Registry.stops := [{| Registry.process := 6; Registry.transport := "pipe" |}] |}
  /\ Cli.kill parse "{}" r
     = (Registry.destroy 7 r, {| Cli.status := 200; Cli.body := Cli.Success |}).
Proof.
  intros spawn r parse. split_and!.
  - exact (proj1 (destroy_idempotent 8 r parse "{}") eq_refl).
  - refine (eq_trans
             (proj1 (proj2 (destroy_idempotent 7 r parse "{}")) _ eq_refl) _).
    by vm_compute.
  - exact (proj2 (proj2 (proj2 (proj2 (destroy_idempotent 7 r parse "{}"))))
             eq_refl).
Defined.

(** * Further properties of the code *)

(** ** spawn.ts: resolving the executable *)

Section MoreResolution.

Import Spawn.

Context {num : Type} (h : Host num).

Lemma find_None_Forall {A} (f : A -> bool) (l : list A) :
  Js.find f l = None <-> Forall (fun x => f x = false) l.
Proof.
  unfold Js.find. induction l as [|x l IH]; simpl.
  - split; [by constructor|done].
  - destruct (f x) eqn:E.
    + split; [done|]. intros H. apply Forall_cons in H as [H _]. congruence.
    + rewrite IH. split; [by constructor|]. by intros [_ H]%Forall_cons.
Qed.

Lemma find_Some_first {A} (f : A -> bool) (l : list A) (x : A) :
  Js.find f l = Some x ->
  exists l1 l2, l = l1 ++ x :: l2 /\ f x = true /\ Forall (fun y => f y = false) l1.
Proof.
  unfold Js.find. induction l as [|y l IH]; simpl; [done|].
  destruct (f y) eqn:E.
  - intros [= ->]. exists [], l. by split_and!.
  - intros H. destruct (IH H) as (l1 & l2 & -> & Hx & Hl1).
    exists (y :: l1), l2. split_and!; try done. by constructor.
Qed.

Lemma findBrowserPath_star_none type :
  has_finder type = true ->
  findAll h type = [] -> exists e, findBrowserPath h type "*" = Throw e.
Proof.
  intros Hh Ha. rewrite findBrowserPath_with_finder by auto.
  simpl. rewrite Ha. simpl. by eexists.
Qed.

Lemma findBrowserPath_no_finder type rx :
  has_finder type = false -> (rx = "*" \/ isQuality h rx = true) ->
  exists e, findBrowserPath h type rx = Throw e.
Proof.
  intros Hh Hrx. rewrite findBrowserPath_without_finder by done. by eexists.
Qed.

Lemma has_finder_false type :
  type ∉ ["edge"; "chrome"; "firefox"] <-> has_finder type = false.
Proof. unfold has_finder. by rewrite bool_decide_eq_false. Qed.

End MoreResolution.

(** X1: [findBrowserPath] throws only when [*] or a quality is asked
    for, and then in exactly these cases: the type is none of the three
    keys of the finders; [*] is asked for and the finder of the type
    discovers nothing; a quality other than [*] is asked for and no
    discovered installation has it.  A path that is neither [*] nor a
    quality is never checked.  For a type that is none of the three keys
    what is thrown is the UserError that says so, unless the type is a key
    that the finders object inherits, for which the call of [findAll]
    throws a TypeError. *)
Theorem findBrowserPath_fails_iff {num} (h : Spawn.Host num)
    (type : Spawn.BrowserType) (runtimeExecutable : string) :
  let q := String (Ascii.ascii_of_nat 34) EmptyString in
  ((exists e, Spawn.findBrowserPath h type runtimeExecutable = Spawn.Throw e)
   <->
   (runtimeExecutable = "*" \/ Spawn.isQuality h runtimeExecutable = true)
   /\ (type ∉ ["edge"; "chrome"; "firefox"]
       \/ (runtimeExecutable = "*" /\ Spawn.findAll h type = [])
       \/ (runtimeExecutable <> "*"
           /\ Forall (fun r => Spawn.IExecutable.quality r <> runtimeExecutable)
                (Spawn.findAll h type))))
  /\ (forall e,
        Spawn.findBrowserPath h type runtimeExecutable = Spawn.Throw e ->
        type ∉ ["edge"; "chrome"; "firefox"] ->
        e = if bool_decide (type ∈ Spawn.inherited_keys) then Spawn.TypeError
            else Spawn.mkUserError
                   ("Browser type " +:+ q +:+ type +:+ q +:+ " is not supported.")).
Proof.
  intros q. split.
  - destruct (decide (runtimeExecutable = "*"
                      \/ Spawn.isQuality h runtimeExecutable = true))
      as [Hrx|Hrx].
    2:{ split; [|by intros [? _]]. intros [e He].
        rewrite findBrowserPath_verbatim in He; [done|tauto|].
        destruct (Spawn.isQuality h runtimeExecutable); tauto. }
    destruct (Spawn.has_finder type) eqn:Hh.
    2:{ split.
        - intros _. split; [done|]. left. by apply has_finder_false.
        - intros _. by apply findBrowserPath_no_finder. }
    rewrite findBrowserPath_with_finder by done. cbv zeta.
    assert (type ∉ ["edge"; "chrome"; "firefox"] -> False) as Hin.
    { intros Hn%has_finder_false. congruence. }
    destruct (decide (runtimeExecutable = "*")) as [->|Hne].
    + simpl. destruct (Js.find _ _) as [r|] eqn:Ef.
      * split; [by intros [e ?]|].
        intros [_ [?|[[_ Hnil]|[? _]]]]; [done| |done].
        rewrite Hnil in Ef. done.
      * destruct (Spawn.findAll h type) as [|r rest] eqn:Ea; simpl.
        -- split; [|intros _; by eexists]. intros _. split; [by left|].
           right. by left.
        -- split; [by intros [e ?]|].
           by intros [_ [?|[[_ ?]|[? _]]]].
    + rewrite (bool_decide_eq_false_2 (runtimeExecutable = "*")) by done.
      destruct (Js.find _ _) as [r|] eqn:Ef.
      * split; [by intros [e ?]|].
        intros [_ [?|[[? _]|[_ Hall]]]]; [done|done|].
        apply find_Some_first in Ef as (l1 & l2 & Ha & Hq & _).
        rewrite Ha in Hall. apply Forall_app in Hall as [_ Hall].
        apply Forall_cons in Hall as [Hr _].
        by apply bool_decide_eq_true in Hq.
      * split.
        -- intros _. split; [done|]. right. right. split; [done|].
           apply find_None_Forall in Ef.
           eapply Forall_impl; [exact Ef|]. intros r Hr.
           by apply bool_decide_eq_false in Hr.
        -- intros _. destruct (_ && _); by eexists.
  - intros e He Hn%has_finder_false.
    destruct (decide (runtimeExecutable = "*"
                      \/ Spawn.isQuality h runtimeExecutable = true))
      as [Hrx|Hrx].
    2:{ rewrite findBrowserPath_verbatim in He; [done|tauto|].
        destruct (Spawn.isQuality h runtimeExecutable); tauto. }
    rewrite findBrowserPath_without_finder in He by done.
    injection He as <-. unfold Spawn.in_finders.
    apply bool_decide_eq_false in Hn.
    case_bool_decide as H1; case_bool_decide as H2; try done;
      rewrite elem_of_app in H1; tauto.
Qed.

Lemma findBrowserPath_fails_iff_witness :
  let q := String (Ascii.ascii_of_nat 34) EmptyString in
  (exists e, Spawn.findBrowserPath (Example.host_with [Example.canary])
               Spawn.chrome "stable" = Spawn.Throw e)
  /\ Spawn.findAll Example.host Spawn.chrome = []
  /\ Spawn.findBrowserPath Example.host "safari" "*"
     = Spawn.Throw
         (Spawn.mkUserError
            ("Browser type " +:+ q +:+ "safari" +:+ q +:+ " is not supported."))
  /\ Spawn.findBrowserPath Example.host "toString" "*"
     = Spawn.Throw Spawn.TypeError.
Proof.
  intros q. split_and!.
  - apply (proj2 (proj1 (findBrowserPath_fails_iff
                           (Example.host_with [Example.canary])
                           Spawn.chrome "stable"))).
    split; [by right|]. right. right. split; [discriminate|].
    repeat constructor. discriminate.
  - destruct (proj1 (proj1 (findBrowserPath_fails_iff Example.host
                              Spawn.chrome "*"))
                (ex_intro _ _ eq_refl)) as [_ [H|[[_ H]|[H _]]]];
      [|exact H|done].
    exfalso. apply H. by apply (bool_decide_unpack _).
  - exact (f_equal Spawn.Throw
             (proj2 (findBrowserPath_fails_iff Example.host "safari" "*")
                _ eq_refl ltac:(by apply (bool_decide_unpack _)))).
  - exact (f_equal Spawn.Throw
             (proj2 (findBrowserPath_fails_iff Example.host "toString" "*")
                _ eq_refl ltac:(by apply (bool_decide_unpack _)))).
Defined.

(** X2: the path that [findBrowserPath] returns is either the
    [runtimeExecutable] given, when that is neither [*] nor a quality, or
    the path of a discovered installation: for a quality, the first
    discovered installation of that quality; for [*], the first stable
    one, and the first of all only when none is stable. *)
Theorem resolved_path_origin {num} (h : Spawn.Host num)
    (type : Spawn.BrowserType) (runtimeExecutable p : string) :
  Spawn.findBrowserPath h type runtimeExecutable = Spawn.Return p ->
  (runtimeExecutable <> "*"
   /\ Spawn.isQuality h runtimeExecutable = false
   /\ p = runtimeExecutable)
  \/ exists before r after,
       Spawn.findAll h type = before ++ r :: after
       /\ Spawn.IExecutable.path r = p
       /\ let wanted := if bool_decide (runtimeExecutable = "*") then "stable"
                        else runtimeExecutable in
          (Spawn.IExecutable.quality r = wanted
           /\ Forall (fun r' => Spawn.IExecutable.quality r' <> wanted) before)
          \/ (runtimeExecutable = "*" /\ before = []
              /\ Forall (fun r' => Spawn.IExecutable.quality r' <> "stable")
                   (Spawn.findAll h type)).
Proof.
  destruct (decide (runtimeExecutable = "*"
                    \/ Spawn.isQuality h runtimeExecutable = true))
    as [Hrx|Hrx].
  2:{ assert (runtimeExecutable <> "*"
              /\ Spawn.isQuality h runtimeExecutable = false) as [Hne Hq].
      { destruct (Spawn.isQuality h runtimeExecutable); tauto. }
      rewrite findBrowserPath_verbatim by done. intros [= <-]. by left. }
  destruct (Spawn.has_finder type) eqn:Hh.
  2:{ by rewrite findBrowserPath_without_finder. }
  rewrite findBrowserPath_with_finder by done. cbv zeta.
  destruct (decide (runtimeExecutable = "*")) as [->|Hne].
  - simpl. destruct (Js.find _ _) as [r|] eqn:Ef.
    + intros [= <-]. right.
      apply find_Some_first in Ef as (l1 & l2 & Ha & Hq & Hl1).
      exists l1, r, l2. split_and!; try done. left.
      split; [by apply bool_decide_eq_true in Hq|].
      eapply Forall_impl; [exact Hl1|]. intros r' Hr'.
      by apply bool_decide_eq_false in Hr'.
    + destruct (Spawn.findAll h type) as [|r rest] eqn:Ea; simpl; [done|].
      intros [= <-]. right. exists [], r, rest. split_and!; try done.
      right. split_and!; try done.
      apply find_None_Forall in Ef.
      eapply Forall_impl; [exact Ef|]. intros r' Hr'.
      by apply bool_decide_eq_false in Hr'.
  - rewrite (bool_decide_eq_false_2 (runtimeExecutable = "*")) by done.
    destruct (Js.find _ _) as [r|] eqn:Ef; [|by destruct (_ && _)].
    intros [= <-]. right.
    apply find_Some_first in Ef as (l1 & l2 & Ha & Hq & Hl1).
    exists l1, r, l2. split_and!; try done. left.
    split; [by apply bool_decide_eq_true in Hq|].
    eapply Forall_impl; [exact Hl1|]. intros r' Hr'.
    by apply bool_decide_eq_false in Hr'.
Qed.

Lemma resolved_path_origin_witness :
  exists before r after,
    Spawn.findAll (Example.host_with [Example.canary; Example.stable]) Spawn.chrome
      = before ++ r :: after
    /\ Spawn.IExecutable.path r = "/opt/chrome/chrome"
    /\ Spawn.IExecutable.quality r = "stable".
Proof.
  destruct (resolved_path_origin
              (Example.host_with [Example.canary; Example.stable])
              Spawn.chrome "*" "/opt/chrome/chrome" eq_refl)
    as [(Hne & _)|(before & r & after & Ha & Hp & Hq)]; [done|].
  exists before, r, after. split_and!; try done.
  destruct Hq as [[Hq _]|(_ & -> & _)]; [exact Hq|].
  simpl in Ha. injection Ha as <- _. discriminate Hp.
Defined.

(** X3: for the finder of a browser type, whose [findWhere] gives the
    first installation of [findAll] that satisfies the predicate,
    [findBrowserByExe] returns the path that [findBrowserPath] returns
    over the same installations, and [undefined] where [findBrowserPath]
    throws. *)
Theorem findBrowserByExe_agrees {num} (h : Spawn.Host num)
    (finder : Spawn.IBrowserFinder) (type : Spawn.BrowserType)
    (executablePath : string) :
  type ∈ ["edge"; "chrome"; "firefox"] ->
  (forall f, Spawn.findWhere finder f = Js.find f (Spawn.finder_findAll finder)) ->
  Spawn.findAll h type = Spawn.finder_findAll finder ->
  match Spawn.findBrowserPath h type executablePath with
  | Spawn.Return p => Spawn.findBrowserByExe h finder executablePath = Some p
  | Spawn.Throw _ => Spawn.findBrowserByExe h finder executablePath = None
  end.
Proof.
  intros Hin%has_finder_names Hw Ha.
  destruct (decide (executablePath = "*"
                    \/ Spawn.isQuality h executablePath = true))
    as [Hrx|Hrx].
  2:{ assert (executablePath <> "*"
              /\ Spawn.isQuality h executablePath = false) as [Hne Hq].
      { destruct (Spawn.isQuality h executablePath); tauto. }
      rewrite findBrowserPath_verbatim by done.
      unfold Spawn.findBrowserByExe.
      by rewrite (bool_decide_eq_false_2 (executablePath = "*")), Hq. }
  rewrite findBrowserPath_with_finder by done. cbv zeta.
  unfold Spawn.findBrowserByExe. rewrite !Hw, Ha.
  case_bool_decide as Hstar; simpl.
  - destruct (Js.find _ _) as [r|]; [done|].
    destruct (Spawn.finder_findAll finder) as [|r rest]; simpl; [|done].
    by destruct (_ && _).
  - destruct Hrx as [? | ->]; [done|].
    destruct (Js.find _ _) as [r|]; [done|]. by destruct (_ && _).
Qed.

Lemma findBrowserByExe_agrees_witness :
  let finder :=
    {| Spawn.findWhere := fun f => Js.find f [Example.canary; Example.stable];
       Spawn.finder_findAll := [Example.canary; Example.stable] |} in
  Spawn.findBrowserByExe (Example.host_with [Example.canary; Example.stable])
    finder "*" = Some "/opt/chrome/chrome"
  /\ Spawn.findBrowserByExe (Example.host_with [Example.canary; Example.stable])
       finder "beta" = None.
Proof.
  intros finder. split.
  - exact (findBrowserByExe_agrees
             (Example.host_with [Example.canary; Example.stable]) finder
             Spawn.chrome "*" ltac:(by apply (bool_decide_unpack _))
             (fun f => eq_refl) eq_refl).
  - exact (findBrowserByExe_agrees
             (Example.host_with [Example.canary; Example.stable]) finder
             Spawn.chrome "beta" ltac:(by apply (bool_decide_unpack _))
             (fun f => eq_refl) eq_refl).
Defined.

(** X4: for a browser type that has a finder, [launchBrowserOnly] spawns
    a browser exactly when the finder discovers an installation: the first
    stable one, or the first of all when none is stable.  The child is
    detached, its stdio is ignored and the url is its only argument; it is
    the command that [launch] spawns for [*].  When nothing is discovered
    the call throws and spawns nothing, and so it does for a type that is
    none of the three keys of the finders. *)
Theorem launchBrowserOnly_spec {num} (h : Spawn.Host num)
    (storagePath : string) (type : Spawn.BrowserType) (url : string)
    (p : Spawn.ILaunchParams.t) :
  (type ∈ ["edge"; "chrome"; "firefox"] ->
   match Spawn.findAll h type with
   | [] => exists e, Spawn.launchBrowserOnly h type url = ([], Spawn.Throw e)
   | first :: _ =>
       exists child,
         Spawn.launchBrowserOnly h type url = ([child], Spawn.Return tt)
         /\ Spawn.args child = [url]
         /\ Spawn.detached (Spawn.options child) = true
         /\ Spawn.stdio (Spawn.options child) = Spawn.StdioAll Spawn.ignore
         /\ Spawn.command child
            = Spawn.IExecutable.path
                (default first
                   (Js.find (fun r => bool_decide
                                        (Spawn.IExecutable.quality r = "stable"))
                      (Spawn.findAll h type)))
         /\ (Spawn.ILaunchParams.type p = type ->
             Spawn.Params.runtimeExecutable (Spawn.ILaunchParams.params p) = "*" ->
             exists child',
               fst (Spawn.launch h storagePath p) = [child']
               /\ Spawn.command child' = Spawn.command child)
   end)
  /\ (type ∉ ["edge"; "chrome"; "firefox"] ->
      exists e, Spawn.launchBrowserOnly h type url = ([], Spawn.Throw e)).
Proof.
  unfold Spawn.launchBrowserOnly. split.
  - intros Hin%has_finder_names.
    destruct (Spawn.findAll h type) as [|first rest] eqn:Ea.
    + assert (exists e, Spawn.findBrowserPath h type "*" = Spawn.Throw e)
        as [e ->]; [|by eexists].
      by apply findBrowserPath_star_none.
    + assert (Spawn.findBrowserPath h type "*"
              = Spawn.Return
                  (Spawn.IExecutable.path
                     (default first
                        (Js.find (fun r => bool_decide
                                    (Spawn.IExecutable.quality r = "stable"))
                           (first :: rest))))) as Hb.
      { destruct (Js.find _ (first :: rest)) as [r|] eqn:Ef; simpl.
        - apply findBrowserPath_star_stable; [done|]. by rewrite Ea.
        - eapply findBrowserPath_star_first; [done|by rewrite Ea|done]. }
      rewrite Hb. eexists. split_and!; try done.
      intros Ht Hrx.
      destruct (launch_spawns h storagePath p _ ltac:(rewrite Ht, Hrx; exact Hb))
        as (child' & tgt & Hl & _ & Hc).
      exists child'. by rewrite Hl.
  - intros Hn%has_finder_false.
    destruct (findBrowserPath_no_finder h type "*" Hn) as [e ->]; [by left|].
    by eexists.
Qed.

Lemma launchBrowserOnly_spec_witness :
  (exists child,
     Spawn.launchBrowserOnly (Example.host_with [Example.canary; Example.stable])
       Spawn.chrome "http://localhost:8080" = ([child], Spawn.Return tt)
     /\ Spawn.command child = "/opt/chrome/chrome"
     /\ exists child',
          fst (Spawn.launch (Example.host_with [Example.canary; Example.stable])
                 "/state" (Example.launch_params "*" (Spawn.Flag false) [] None))
            = [child']
          /\ Spawn.command child' = Spawn.command child)
  /\ exists e,
       Spawn.launchBrowserOnly (Example.host_with [Example.canary; Example.stable])
         "safari" "http://localhost:8080" = ([], Spawn.Throw e).
Proof.
  split.
  - destruct (proj1 (launchBrowserOnly_spec
                (Example.host_with [Example.canary; Example.stable]) "/state"
                Spawn.chrome "http://localhost:8080"
                (Example.launch_params "*" (Spawn.Flag false) [] None))
                ltac:(by apply (bool_decide_unpack _)))
      as (child & Hl & _ & _ & _ & Hc & Hsame).
    exists child. split_and!; [exact Hl | exact Hc | exact (Hsame eq_refl eq_refl)].
  - apply (proj2 (launchBrowserOnly_spec
                (Example.host_with [Example.canary; Example.stable]) "/state"
                "safari" "http://localhost:8080"
                (Example.launch_params "*" (Spawn.Flag false) [] None))).
    by apply (bool_decide_unpack _).
Defined.

(** ** spawn.ts: the working directory and the environment of the child *)

(** X5: the working directory of the child is [params.cwd] when that is a
    non-empty string naming an existing path; [webRoot] is looked at only
    when [cwd] is [null] or empty, and used when it is non-empty and
    exists; in every other case, also that of a [cwd] that does not
    exist, it is the working directory of the process.  So the child
    never starts in a directory that [exists] denies, unless that is the
    directory of the process itself. *)
Theorem launch_cwd {num} (h : Spawn.Host num) (storagePath : string)
    (p : Spawn.ILaunchParams.t) (binary : string) :
  Spawn.findBrowserPath h (Spawn.ILaunchParams.type p)
    (Spawn.Params.runtimeExecutable (Spawn.ILaunchParams.params p))
    = Spawn.Return binary ->
  let pick d := if Spawn.exists_ h d then d else Spawn.process_cwd h in
  let from_webRoot :=
    match Spawn.Params.webRoot (Spawn.ILaunchParams.params p) with
    | Some w => if bool_decide (w = EmptyString) then Spawn.process_cwd h else pick w
    | None => Spawn.process_cwd h
    end in
  exists child,
    fst (Spawn.launch h storagePath p) = [child]
    /\ Spawn.spawn_cwd (Spawn.options child)
       = match Spawn.Params.cwd (Spawn.ILaunchParams.params p) with
         | Some c => if bool_decide (c = EmptyString) then from_webRoot else pick c
         | None => from_webRoot
         end
    /\ (Spawn.spawn_cwd (Spawn.options child) = Spawn.process_cwd h
        \/ Spawn.exists_ h (Spawn.spawn_cwd (Spawn.options child)) = true).
Proof.
  intros Hb pick from_webRoot. unfold Spawn.launch. rewrite Hb.
  set (dir := match Spawn.or_else _ _ with Some c => _ | None => _ end).
  assert (dir = match Spawn.Params.cwd (Spawn.ILaunchParams.params p) with
                | Some c => if bool_decide (c = EmptyString) then from_webRoot
                            else pick c
                | None => from_webRoot
                end
          /\ (dir = Spawn.process_cwd h \/ Spawn.exists_ h dir = true))
    as [Hdir Hok].
  { subst dir from_webRoot pick. unfold Spawn.or_else, Spawn.falsy.
    destruct (Spawn.Params.cwd _) as [c|], (Spawn.Params.webRoot _) as [w|];
      repeat case_bool_decide; simpl;
      repeat match goal with
        | |- context [Spawn.exists_ h ?d] =>
            let E := fresh "E" in destruct (Spawn.exists_ h d) eqn:E; simpl
        end; split; try done; auto. }
  destruct (Js.slice _ <$> Js.find _ _) as [port|];
    [destruct (bool_decide (port = EmptyString))|]; by eexists.
Qed.

Lemma launch_cwd_witness :
  let h :=
    {| Spawn.isQuality := Spawn.isQuality Example.host;
       Spawn.findAll := Spawn.findAll Example.host;
       Spawn.exists_ := fun d => bool_decide (d = "/srv/www");
       Spawn.join := Spawn.join Example.host;
       Spawn.Number := Spawn.Number Example.host;
       Spawn.JSON_stringify := Spawn.JSON_stringify Example.host;
       Spawn.platform := "linux";
       Spawn.process_cwd := "/";
       Spawn.process_env := ∅ |} in
  let p cwd :=
    {| Spawn.ILaunchParams.type := Spawn.chrome;
       Spawn.ILaunchParams.path := "/";
       Spawn.ILaunchParams.proxyUri := "127.0.0.1:9000";
       Spawn.ILaunchParams.launchId := 7;
       Spawn.ILaunchParams.browserArgs := [];
       Spawn.ILaunchParams.wslInfo := None;
       Spawn.ILaunchParams.attach := None;
       Spawn.ILaunchParams.params :=
         {| Spawn.Params.env := ∅;
            Spawn.Params.runtimeExecutable := "/usr/bin/chromium";
            Spawn.Params.userDataDir := Spawn.Flag false;
            Spawn.Params.cwd := cwd;
            Spawn.Params.webRoot := Some "/srv/www" |} |} in
  (exists child,
     fst (Spawn.launch h "/state" (p (Some "/remote/project"))) = [child]
     /\ Spawn.spawn_cwd (Spawn.options child) = "/")
  /\ (exists child,
        fst (Spawn.launch h "/state" (p None)) = [child]
        /\ Spawn.spawn_cwd (Spawn.options child) = "/srv/www").
Proof.
  intros h p. split.
  - destruct (launch_cwd h "/state" (p (Some "/remote/project"))
                "/usr/bin/chromium" eq_refl) as (child & Hl & Hc & _).
    exists child. split; [exact Hl | exact Hc].
  - destruct (launch_cwd h "/state" (p None) "/usr/bin/chromium" eq_refl)
      as (child & Hl & Hc & _).
    exists child. split; [exact Hl | exact Hc].
Defined.

(** X6: the environment of a pipe-backed child.  A variable set in
    [params.env] has the value given there, [null] included; otherwise
    [GDK_PIXBUF_MODULEDIR], [GDK_PIXBUF_MODULE_FILE] and
    [ELECTRON_RUN_AS_NODE] are [undefined], and every other variable is as
    in the environment of the process. *)
Theorem piped_child_env {num} (h : Spawn.Host num) (storagePath : string)
    (p : Spawn.ILaunchParams.t) (child : Spawn.ChildProcess) (k : string) :
  snd (Spawn.launch h storagePath p) = Spawn.Return (Spawn.PipedTarget child) ->
  Spawn.spawn_env (Spawn.options child) !! k
  = match Spawn.Params.env (Spawn.ILaunchParams.params p) !! k with
    | Some v => Some v
    | None =>
        if bool_decide (k ∈ ["GDK_PIXBUF_MODULEDIR"; "GDK_PIXBUF_MODULE_FILE";
                             "ELECTRON_RUN_AS_NODE"])
        then Some Spawn.EnvUndefined
        else Spawn.process_env h !! k
    end.
Proof.
  unfold Spawn.launch.
  destruct (Spawn.findBrowserPath _ _ _) as [binary|e]; [|done].
  assert (forall c : Spawn.ChildProcess,
    Spawn.spawn_env (Spawn.options c)
    = Spawn.Params.env (Spawn.ILaunchParams.params p)
      ∪ <["ELECTRON_RUN_AS_NODE" := Spawn.EnvUndefined]>
          (<["GDK_PIXBUF_MODULE_FILE" := Spawn.EnvUndefined]>
            (<["GDK_PIXBUF_MODULEDIR" := Spawn.EnvUndefined]>
              (Spawn.process_env h))) ->
    Spawn.spawn_env (Spawn.options c) !! k
    = match Spawn.Params.env (Spawn.ILaunchParams.params p) !! k with
      | Some v => Some v
      | None =>
          if bool_decide (k ∈ ["GDK_PIXBUF_MODULEDIR"; "GDK_PIXBUF_MODULE_FILE";
                               "ELECTRON_RUN_AS_NODE"])
          then Some Spawn.EnvUndefined
          else Spawn.process_env h !! k
      end) as Henv.
  { intros c ->.
    destruct (Spawn.Params.env _ !! k) as [v|] eqn:E.
    - by apply lookup_union_Some_l.
    - rewrite lookup_union_r by done.
      rewrite !lookup_insert. case_bool_decide as Hin.
      + repeat case_decide; try done. exfalso.
        rewrite !elem_of_cons, elem_of_nil in Hin. intuition congruence.
      + repeat case_decide; try done; exfalso; apply Hin; subst;
          rewrite !elem_of_cons; auto. }
  destruct (Js.slice _ <$> Js.find _ _) as [port|];
    [destruct (bool_decide (port = EmptyString))|]; simpl;
    intros [= <-]; by apply Henv.
Qed.

Lemma piped_child_env_witness :
  let p := Example.launch_params "/usr/bin/chromium" (Spawn.Flag false)
             ["about:blank"] None in
  exists child,
    snd (Spawn.launch Example.host "/state" p)
      = Spawn.Return (Spawn.PipedTarget child)
    /\ Spawn.spawn_env (Spawn.options child) !! "ELECTRON_RUN_AS_NODE"
       = Some Spawn.EnvUndefined
    /\ Spawn.spawn_env (Spawn.options child) !! "PATH" = None.
Proof.
  intros p. eexists. split; [reflexivity|]. split.
  - exact (piped_child_env Example.host "/state" p _ "ELECTRON_RUN_AS_NODE" eq_refl).
  - exact (piped_child_env Example.host "/state" p _ "PATH" eq_refl).
Defined.

(** X7: the environment of a socket-backed child holds what [params.env]
    sets and, unless set there, [ELECTRON_RUN_AS_NODE] as [undefined]; it
    holds no other variable: nothing is taken over from the environment
    of the process. *)
Theorem server_child_env {num} (h : Spawn.Host num) (storagePath : string)
    (p : Spawn.ILaunchParams.t) (child : Spawn.ChildProcess) (port : num)
    (k : string) :
  snd (Spawn.launch h storagePath p)
    = Spawn.Return (Spawn.ServerTarget child port) ->
  Spawn.spawn_env (Spawn.options child) !! k
  = match Spawn.Params.env (Spawn.ILaunchParams.params p) !! k with
    | Some v => Some v
    | None =>
        if bool_decide (k = "ELECTRON_RUN_AS_NODE") then Some Spawn.EnvUndefined
        else None
    end.
Proof.
  unfold Spawn.launch.
  destruct (Spawn.findBrowserPath _ _ _) as [binary|e]; [|done].
  destruct (Js.slice _ <$> Js.find _ _) as [port'|];
    [destruct (bool_decide (port' = EmptyString))|]; simpl; try done.
  intros [= <- _]. simpl.
  destruct (Spawn.Params.env _ !! k) as [v|] eqn:E.
  - by apply lookup_union_Some_l.
  - rewrite lookup_union_r by done. case_bool_decide as Hk.
    + subst. by rewrite lookup_singleton_eq.
    + by rewrite lookup_singleton_ne.
Qed.

Lemma server_child_env_witness :
  let h :=
    {| Spawn.isQuality := Spawn.isQuality Example.host;
       Spawn.findAll := Spawn.findAll Example.host;
       Spawn.exists_ := Spawn.exists_ Example.host;
       Spawn.join := Spawn.join Example.host;
       Spawn.Number := Spawn.Number Example.host;
       Spawn.JSON_stringify := Spawn.JSON_stringify Example.host;
       Spawn.platform := "linux";
       Spawn.process_cwd := "/";
       Spawn.process_env := {["PATH" := Spawn.EnvString "/usr/bin"]} |} in
  let p := Example.launch_params "/usr/bin/chromium" (Spawn.Flag false)
             ["--remote-debugging-port=9222"] None in
  Spawn.process_env h !! "PATH" = Some (Spawn.EnvString "/usr/bin")
  /\ exists child port,
       snd (Spawn.launch h "/state" p)
         = Spawn.Return (Spawn.ServerTarget child port)
       /\ Spawn.spawn_env (Spawn.options child) !! "PATH" = None.
Proof.
  intros h p. split; [reflexivity|]. eexists _, _. split; [reflexivity|].
  exact (server_child_env h "/state" p _ _ "PATH" eq_refl).
Defined.

(** ** vscode.ts: the emitters *)

Section EmitterFacts.

Import Api.

Lemma second_emitter_registrations {T} (ls : list Listener)
    (ops : list (EmitterOp T)) (e : Second.EventEmitter.t) :
  exists e',
    Second.EventEmitter.listeners e' = Second.EventEmitter.listeners e ++ ls
    /\ emitter_run second_emitter_step ((Event <$> ls) ++ ops) e
       = emitter_run second_emitter_step ops e'.
Proof.
  revert e. induction ls as [|l ls IH]; intros e.
  - exists e. by rewrite app_nil_r.
  - destruct (IH (Second.EventEmitter.event l e)) as (e' & Hl & Hrun).
    exists e'. split; [|exact Hrun].
    rewrite Hl. unfold Second.EventEmitter.listeners, Second.EventEmitter.event.
    simpl. by rewrite listeners_on, <- app_assoc.
Qed.

Lemma remove_last_absent l ls : l ∉ ls -> NodeEventEmitter.remove_last l ls = ls.
Proof.
  induction ls as [|x ls IH]; [done|].
  intros Hnot. apply not_elem_of_cons in Hnot as [Hne Hnot]. simpl.
  rewrite (bool_decide_eq_false_2 (l ∈ ls)) by done.
  by rewrite bool_decide_eq_false_2 by congruence.
Qed.

Lemma remove_last_latest l l1 l2 :
  l ∉ l2 -> NodeEventEmitter.remove_last l (l1 ++ l :: l2) = l1 ++ l2.
Proof.
  intros Hnot. induction l1 as [|x l1 IH]; simpl.
  - rewrite (bool_decide_eq_false_2 (l ∈ l2)) by done.
    by rewrite bool_decide_eq_true_2.
  - rewrite bool_decide_eq_true_2; [by rewrite IH|].
    apply elem_of_app. right. by left.
Qed.

Lemma remove_first_earliest l l1 l2 :
  l ∉ l1 ->
  First.CancellationTokenSource.remove_first l (l1 ++ l :: l2) = l1 ++ l2.
Proof.
  induction l1 as [|x l1 IH]; simpl; intros Hnot.
  - by rewrite bool_decide_eq_true_2.
  - apply not_elem_of_cons in Hnot as [Hne Hnot].
    rewrite bool_decide_eq_false_2 by congruence. by rewrite IH.
Qed.

End EmitterFacts.

(** X8: an emitter calls its listeners in the order in which they were
    registered, each with the data fired: after registering [ls] on a new
    emitter, [fire(d)] calls exactly [ls], in order, with [d].  This holds
    of the emitters of both versions. *)
Theorem fire_calls_in_registration_order {T} (ls : list Listener) (d : T)
    (_counter : nat) :
  Api.emitter_run Api.first_emitter_step ((Api.Event <$> ls) ++ [Api.Fire d])
    (fst (First.EventEmitter.create _counter))
  = (fun l => (l, d)) <$> ls
  /\ Api.emitter_run Api.second_emitter_step ((Api.Event <$> ls) ++ [Api.Fire d])
       Second.EventEmitter.create
     = (fun l => (l, d)) <$> ls.
Proof.
  assert (Api.emitter_run Api.second_emitter_step
            ((Api.Event <$> ls) ++ [Api.Fire d]) Second.EventEmitter.create
          = (fun l => (l, d)) <$> ls) as H2.
  { destruct (second_emitter_registrations ls [Api.Fire d]
                Second.EventEmitter.create) as (e' & Hl & ->).
    simpl. rewrite app_nil_r.
    unfold Second.EventEmitter.fire, NodeEventEmitter.emit.
    unfold Second.EventEmitter.listeners in Hl. rewrite Hl.
    by rewrite listeners_create. }
  split; [|exact H2]. rewrite <- H2. apply emitter_simulation. simpl.
  unfold Second.EventEmitter.listeners. simpl. by rewrite !listeners_create.
Qed.

(** X9: the Disposable of a registration removes one registration of its
    listener and no other: on an emitter it is the latest registration of
    that function, the listeners before and after it staying in place and
    in order; when the function is not registered, nothing changes: the
    emitter holds the listeners it held and [fire] calls what it called.
    This holds of the emitters of both versions. *)
Theorem disposable_removes_latest_registration {T}
    (e1 : First.EventEmitter.t) (e2 : Second.EventEmitter.t)
    (l : Listener) (l1 l2 : list Listener) (d : T) :
  l ∉ l2 ->
  (NodeEventEmitter.listeners (First.EventEmitter._eventName e1)
     (First.EventEmitter._emitter e1) = l1 ++ l :: l2 ->
   First.EventEmitter.fire d (First.EventEmitter.dispose_registration l e1)
   = (fun x => (x, d)) <$> (l1 ++ l2))
  /\ (Second.EventEmitter.listeners e2 = l1 ++ l :: l2 ->
      Second.EventEmitter.fire d (Second.EventEmitter.dispose_registration l e2)
      = (fun x => (x, d)) <$> (l1 ++ l2))
  /\ (Second.EventEmitter.listeners e2 = l2 ->
      Second.EventEmitter.listeners (Second.EventEmitter.dispose_registration l e2)
      = l2
      /\ Second.EventEmitter.fire d (Second.EventEmitter.dispose_registration l e2)
         = Second.EventEmitter.fire d e2)
  /\ (NodeEventEmitter.listeners (First.EventEmitter._eventName e1)
        (First.EventEmitter._emitter e1) = l2 ->
      NodeEventEmitter.listeners (First.EventEmitter._eventName e1)
        (First.EventEmitter._emitter
           (First.EventEmitter.dispose_registration l e1)) = l2
      /\ First.EventEmitter.fire d (First.EventEmitter.dispose_registration l e1)
         = First.EventEmitter.fire d e1).
Proof.
  intros Hnot. split_and!; intros H.
  - unfold First.EventEmitter.fire, First.EventEmitter.dispose_registration,
      NodeEventEmitter.emit. simpl.
    by rewrite listeners_removeListener, H, remove_last_latest.
  - unfold Second.EventEmitter.fire, Second.EventEmitter.dispose_registration,
      Second.EventEmitter.listeners, NodeEventEmitter.emit in *. simpl.
    by rewrite listeners_removeListener, H, remove_last_latest.
  - unfold Second.EventEmitter.fire, Second.EventEmitter.dispose_registration,
      Second.EventEmitter.listeners, NodeEventEmitter.emit in *. simpl.
    rewrite listeners_removeListener, H. by rewrite remove_last_absent.
  - unfold First.EventEmitter.fire, First.EventEmitter.dispose_registration,
      NodeEventEmitter.emit. simpl.
    rewrite listeners_removeListener, H. by rewrite remove_last_absent.
Qed.

Lemma disposable_removes_latest_registration_witness :
  let e1 := First.EventEmitter.event 2 (fst (First.EventEmitter.create 0)) in
  let e2 := Second.EventEmitter.event 1
              (Second.EventEmitter.event 2
                 (Second.EventEmitter.event 1 Second.EventEmitter.create)) in
  Second.EventEmitter.fire 0 (Second.EventEmitter.dispose_registration 1 e2)
  = [(1, 0); (2, 0)]
  /\ First.EventEmitter.fire 0 (First.EventEmitter.dispose_registration 1 e1)
     = First.EventEmitter.fire 0 e1.
Proof.
  intros e1 e2. split.
  - exact (proj1 (proj2 (disposable_removes_latest_registration
                           (fst (First.EventEmitter.create 0)) e2 1 [1; 2] [] 0
                           (not_elem_of_nil 1))) eq_refl).
  - refine (proj2 (proj2 (proj2 (proj2
              (disposable_removes_latest_registration e1 e2 1 [] [2] 0 _)))
              eq_refl)).
    apply (bool_decide_unpack _). vm_compute. exact I.
Defined.

(** X10: after [dispose()], an emitter of the first version behaves as a
    newly made emitter whatever is done to it next: the listeners it held
    are never called again, and listeners registered afterwards are
    called as usual. *)
Theorem disposed_emitter_is_as_new {T} (e : First.EventEmitter.t)
    (ops : list (Api.EmitterOp T)) (_counter : nat) :
  Api.emitter_run Api.first_emitter_step ops (First.EventEmitter.dispose e)
  = Api.emitter_run Api.first_emitter_step ops
      (fst (First.EventEmitter.create _counter)).
Proof.
  transitivity (Api.emitter_run Api.second_emitter_step ops
                  Second.EventEmitter.create).
  - apply emitter_simulation. unfold Second.EventEmitter.listeners. simpl.
    by rewrite listeners_removeAllListeners, listeners_create.
  - symmetry. apply emitter_simulation. unfold Second.EventEmitter.listeners.
    simpl. by rewrite !listeners_create.
Qed.

(** ** vscode.ts: the cancellation sources over whole runs *)

Section Runs.

Context (bodies : Bodies).

Section ViewFacts.

Import Api.

(** The second version shows its clients a flag and a list of listeners:
    every operation acts on that view as [view_step] says, whether or not
    the token and its emitter have been made yet. *)
Lemma second_step_view op s :
  Second.CancellationTokenSource.wf s ->
  second_view (fst (second_step bodies op s))
  = fst (view_step bodies op (second_view s))
  /\ snd (second_step bodies op s) = snd (view_step bodies op (second_view s)).
Proof.
  intros Hwf. unfold second_view.
  destruct op as [|l|l| | |]; cbn [second_step view_step fst snd].
  - by rewrite second_flag_token, second_listeners_token.
  - by destruct (second_on_spec bodies l s Hwf) as (_ & -> & ->).
  - by destruct (second_dispose_registration_spec l s Hwf) as (_ & -> & ->).
  - destruct (Second.CancellationTokenSource._isCancelled s) eqn:E.
    + rewrite second_cancel_again by done. simpl. by rewrite E.
    + pose proof (second_cancel_fresh bodies s Hwf E) as Hc.
      destruct (Second.CancellationTokenSource.cancel bodies s) as [s' calls].
      destruct Hc as (-> & _ & Hc' & Hl). simpl.
      by rewrite Hc', Hl, <- list_fmap_compose.
  - unfold Second.CancellationTokenSource.dispose.
    destruct (Second.CancellationTokenSource._isCancelled s) eqn:E.
    + rewrite second_cancel_again by done. simpl. by rewrite E.
    + pose proof (second_cancel_fresh bodies s Hwf E) as Hc.
      destruct (Second.CancellationTokenSource.cancel bodies s) as [s' calls].
      destruct Hc as (-> & _ & Hc' & Hl). simpl.
      by rewrite Hc', Hl, <- list_fmap_compose.
  - pose proof (second_isCancellationRequested bodies s Hwf) as Hr.
    unfold Second.CancellationTokenSource.isCancellationRequested in *.
    pose proof (second_flag_token bodies s) as Hf.
    pose proof (second_listeners_token bodies s Hwf) as Hl.
    destruct (Second.CancellationTokenSource.token bodies s) as [s' k].
    simpl in *. by rewrite Hf, Hl, Hr.
Qed.

Lemma second_run_view ops s :
  Second.CancellationTokenSource.wf s ->
  second_view (fst (second_run bodies ops s))
  = fst (run (view_step bodies) ops (second_view s))
  /\ snd (second_run bodies ops s)
     = snd (run (view_step bodies) ops (second_view s)).
Proof.
  unfold second_run. revert s.
  induction ops as [|op ops IH]; intros s Hwf; [done|].
  cbn [run].
  destruct (second_step_view op s Hwf) as [Hv Ho].
  pose proof (wf_step bodies op s Hwf) as Hwf'.
  destruct (second_step bodies op s) as [s1 o1].
  destruct (view_step bodies op (second_view s)) as [v1 o1'].
  simpl in *. subst.
  destruct (IH s1 Hwf') as [Hv' Ho'].
  destruct (run (second_step bodies) ops s1) as [s2 o2].
  destruct (run (view_step bodies) ops (second_view s1)) as [v2 o2'].
  simpl in *. by subst.
Qed.

Lemma view_step_flag op c ls :
  fst (fst (view_step bodies op (c, ls))) = c || is_cancelling op.
Proof. destruct op, c; simpl; done. Qed.

Lemma view_run_flag ops c ls :
  fst (fst (run (view_step bodies) ops (c, ls)))
  = c || existsb is_cancelling ops.
Proof.
  revert c ls. induction ops as [|op ops IH]; intros c ls.
  - simpl. by rewrite orb_false_r.
  - cbn [run existsb]. pose proof (view_step_flag op c ls) as Hs.
    destruct (view_step bodies op (c, ls)) as [[c1 ls1] o1]. simpl in Hs.
    specialize (IH c1 ls1).
    destruct (run (view_step bodies) ops (c1, ls1)) as [[c2 ls2] o2].
    simpl in *. by rewrite IH, Hs, orb_assoc.
Qed.

Lemma view_run_without_token ops v :
  run (view_step bodies) ops v
  = run (view_step bodies) (filter (fun op => negb (is_token_read op)) ops) v.
Proof.
  revert v. induction ops as [|op ops IH]; intros [c ls]; [done|].
  destruct op; cbn [filter list_filter is_token_read negb run];
    rewrite ?decide_True, ?decide_False by done; cbn [run];
    try (destruct (view_step bodies _ (c, ls)) as [v1 o1]; by rewrite IH).
  cbn [view_step]. rewrite IH. by destruct (run (view_step bodies) _ _).
Qed.

Lemma remove_last_sublist l ls : NodeEventEmitter.remove_last l ls `sublist_of` ls.
Proof.
  induction ls as [|x ls IH]; [done|]. simpl.
  case_bool_decide; [by apply sublist_skip|].
  case_bool_decide; [by apply sublist_cons|done].
Qed.

Lemma called_app o1 o2 : called (o1 ++ o2) = called o1 ++ called o2.
Proof. unfold called. apply omap_app. Qed.

Lemma called_Called ls : called (Called <$> ls) = ls.
Proof. induction ls as [|l ls IH]; [done|]. simpl. by f_equal. Qed.

Lemma view_cancelled_silent ops ls :
  called (snd (run (view_step bodies) ops (true, ls))) = [].
Proof.
  revert ls. induction ops as [|op ops IH]; intros ls; [done|].
  cbn [run].
  destruct op; cbn [view_step];
    match goal with
    | |- context [run (view_step bodies) ops (true, ?l')] =>
        specialize (IH l'); destruct (run (view_step bodies) ops (true, l'))
    end; simpl in *; try done.
Qed.

(** In the second version the listeners called are, in order, listeners
    that were registered and whose registration was not disposed before
    the first [cancel()] or [dispose()]: one call for one registration. *)
Lemma view_called ops ls :
  called (snd (run (view_step bodies) ops (false, ls)))
  `sublist_of` ls ++ registered ops.
Proof.
  revert ls. induction ops as [|op ops IH]; intros ls.
  - apply sublist_nil_l.
  - cbn [run]. destruct op as [|l|l| | |]; cbn [view_step registered] in *.
    + specialize (IH ls). by destruct (run (view_step bodies) ops (false, ls)).
    + specialize (IH (ls ++ [l])).
      destruct (run (view_step bodies) ops (false, ls ++ [l])). simpl in *.
      by rewrite cons_middle, app_assoc.
    + specialize (IH (NodeEventEmitter.remove_last l ls)).
      destruct (run (view_step bodies) ops (false, _)). simpl in *.
      etrans; [apply IH|].
      apply sublist_app; [apply remove_last_sublist|done].
    + pose proof (view_cancelled_silent ops
                    (foldl (fun a l => NodeEventEmitter.remove_last l a) ls
                       (ls ≫= bodies))) as Hs.
      destruct (run (view_step bodies) ops (true, _)). simpl in *.
      rewrite called_app, called_Called, Hs, app_nil_r.
      by apply sublist_inserts_r.
    + pose proof (view_cancelled_silent ops
                    (foldl (fun a l => NodeEventEmitter.remove_last l a) ls
                       (ls ≫= bodies))) as Hs.
      destruct (run (view_step bodies) ops (true, _)). simpl in *.
      rewrite called_app, called_Called, Hs, app_nil_r.
      by apply sublist_inserts_r.
    + specialize (IH ls). by destruct (run (view_step bodies) ops (false, ls)).
Qed.

(** The first version, once cancelled, calls each listener at the moment
    it is attached and keeps none. *)
Lemma first_cancelled_run ops :
  first_run bodies ops {| First.CancellationTokenSource._cancelled := true;
                          First.CancellationTokenSource._listeners := [] |}
  = ({| First.CancellationTokenSource._cancelled := true;
        First.CancellationTokenSource._listeners := [] |},
     snd (first_run bodies ops
            {| First.CancellationTokenSource._cancelled := true;
               First.CancellationTokenSource._listeners := [] |}))
  /\ called (snd (first_run bodies ops
                    {| First.CancellationTokenSource._cancelled := true;
                       First.CancellationTokenSource._listeners := [] |}))
     = registered ops.
Proof.
  unfold first_run. induction ops as [|op ops [IH1 IH2]]; [done|].
  cbn [run].
  destruct op as [|l|l| | |]; cbn [first_step registered];
    unfold First.CancellationTokenSource.onCancellationRequested,
      First.CancellationTokenSource.dispose_registration,
      First.CancellationTokenSource.cancel,
      First.CancellationTokenSource.dispose; simpl;
    rewrite ?call_nil; rewrite IH1; simpl; split; try done; by rewrite IH2.
Qed.

(** In the first version the listeners called are, in order, listeners
    registered: one call for one registration. *)
Lemma first_called ops s :
  First.CancellationTokenSource._cancelled s = false ->
  called (snd (first_run bodies ops s))
  `sublist_of` First.CancellationTokenSource._listeners s ++ registered ops.
Proof.
  unfold first_run. revert s.
  induction ops as [|op ops IH]; intros [c ls] Hc; simpl in Hc; subst.
  - apply sublist_nil_l.
  - cbn [run]. destruct op as [|l|l| | |]; cbn [first_step registered] in *.
    + specialize (IH {| First.CancellationTokenSource._cancelled := false;
                        First.CancellationTokenSource._listeners := ls |}
                     eq_refl).
      by destruct (run (first_step bodies) ops _).
    + rewrite first_early_listener_queued by done.
      specialize (IH {| First.CancellationTokenSource._cancelled := false;
                        First.CancellationTokenSource._listeners := ls ++ [l] |}
                     eq_refl).
      destruct (run (first_step bodies) ops _). simpl in *.
      by rewrite cons_middle, app_assoc.
    + specialize (IH (First.CancellationTokenSource.dispose_registration l
                        {| First.CancellationTokenSource._cancelled := false;
                           First.CancellationTokenSource._listeners := ls |})
                     eq_refl).
      destruct (run (first_step bodies) ops _). simpl in *.
      etrans; [apply IH|].
      apply sublist_app; [apply remove_first_sublist|done].
    + pose proof (first_cancel_sublist bodies
                    {| First.CancellationTokenSource._cancelled := false;
                       First.CancellationTokenSource._listeners := ls |}) as Hsub.
      rewrite first_cancel_fresh in * by done. simpl in Hsub.
      destruct (first_cancelled_run ops) as [Hrun Hcalled].
      unfold first_run in *. rewrite Hrun. simpl in *.
      rewrite called_app, called_Called, Hcalled.
      by apply sublist_app.
    + specialize (IH (First.CancellationTokenSource.dispose
                        {| First.CancellationTokenSource._cancelled := false;
                           First.CancellationTokenSource._listeners := ls |})
                     eq_refl).
      destruct (run (first_step bodies) ops _). simpl in *.
      by apply sublist_inserts_l.
    + specialize (IH {| First.CancellationTokenSource._cancelled := false;
                        First.CancellationTokenSource._listeners := ls |}
                     eq_refl).
      destruct (run (first_step bodies) ops _). simpl in *. done.
Qed.

End ViewFacts.

Section RunInvariants.

Import Api.

Lemma first_run_without_token ops s :
  first_run bodies ops s
  = first_run bodies (filter (fun op => negb (is_token_read op)) ops) s.
Proof.
  unfold first_run. revert s. induction ops as [|op ops IH]; intros s; [done|].
  destruct op; cbn [filter list_filter is_token_read negb];
    rewrite ?decide_True, ?decide_False by done; cbn [run];
    try (destruct (first_step bodies _ s) as [s1 o1]; by rewrite IH).
  cbn [first_step]. rewrite IH. by destruct (run (first_step bodies) _ _).
Qed.

Lemma first_inv_step op s :
  first_inv s -> first_inv (fst (first_step bodies op s)).
Proof.
  unfold first_inv. destruct s as [c ls].
  destruct op as [|l|l| | |]; simpl;
    unfold First.CancellationTokenSource.onCancellationRequested,
      First.CancellationTokenSource.cancel; simpl;
    destruct c; simpl; intros H; try done; intros Hc;
    try (rewrite (H eq_refl); by rewrite ?call_nil); try discriminate.
Qed.

Lemma first_inv_run ops s :
  first_inv s -> first_inv (fst (first_run bodies ops s)).
Proof.
  unfold first_run. revert s. induction ops as [|op ops IH]; intros s H; [done|].
  cbn [run]. pose proof (first_inv_step op s H) as H1.
  destruct (first_step bodies op s) as [s1 o1]. specialize (IH s1 H1).
  by destruct (run (first_step bodies) ops s1).
Qed.

Lemma first_called_subset ops s :
  called (snd (first_run bodies ops s))
  ⊆ First.CancellationTokenSource._listeners s ++ registered ops.
Proof.
  unfold first_run. revert s.
  induction ops as [|op ops IH]; intros [c ls]; [apply list_subseteq_nil|].
  cbn [run].
  destruct op as [|l|l| | |]; cbn [first_step registered].
  - specialize (IH {| First.CancellationTokenSource._cancelled := c;
                      First.CancellationTokenSource._listeners := ls |}).
    by destruct (run (first_step bodies) ops _).
  - unfold First.CancellationTokenSource.onCancellationRequested. simpl.
    destruct c; simpl.
    + specialize (IH {| First.CancellationTokenSource._cancelled := true;
                        First.CancellationTokenSource._listeners :=
                          First.CancellationTokenSource.call bodies l ls |}).
      destruct (run (first_step bodies) ops _). simpl in *.
      intros x Hx. apply elem_of_cons in Hx as [->|Hx].
      * apply elem_of_app. right. by left.
      * apply IH in Hx. apply elem_of_app in Hx as [Hx|Hx];
          apply elem_of_app; [left|right; by right].
        by apply (sublist_subseteq _ _ (call_sublist bodies l ls)).
    + specialize (IH {| First.CancellationTokenSource._cancelled := false;
                        First.CancellationTokenSource._listeners := ls ++ [l] |}).
      destruct (run (first_step bodies) ops _). simpl in *.
      by rewrite cons_middle, app_assoc.
  - specialize (IH (First.CancellationTokenSource.dispose_registration l
                      {| First.CancellationTokenSource._cancelled := c;
                         First.CancellationTokenSource._listeners := ls |})).
    destruct (run (first_step bodies) ops _). simpl in *.
    etrans; [apply IH|].
    apply sublist_subseteq, sublist_app; [apply remove_first_sublist|done].
  - pose proof (first_cancel_sublist bodies
                  {| First.CancellationTokenSource._cancelled := c;
                     First.CancellationTokenSource._listeners := ls |}) as Hsub.
    destruct (First.CancellationTokenSource.cancel bodies _) as [s' calls] eqn:Ec.
    simpl in Hsub.
    assert (First.CancellationTokenSource._listeners s' `sublist_of` ls) as Hs'.
    { unfold First.CancellationTokenSource.cancel in Ec. simpl in Ec.
      destruct c; simpl in Ec; injection Ec as <- _; simpl;
        [done|apply sublist_nil_l]. }
    specialize (IH s'). destruct (run (first_step bodies) ops s'). simpl in *.
    rewrite called_app, called_Called.
    intros x Hx. apply elem_of_app in Hx as [Hx|Hx]; apply elem_of_app.
    + left. by apply (sublist_subseteq _ _ Hsub).
    + apply IH in Hx. apply elem_of_app in Hx as [Hx|Hx]; [left|by right].
      by apply (sublist_subseteq _ _ Hs').
  - specialize (IH (First.CancellationTokenSource.dispose
                      {| First.CancellationTokenSource._cancelled := c;
                         First.CancellationTokenSource._listeners := ls |})).
    destruct (run (first_step bodies) ops _). simpl in *.
    by apply list_subseteq_app_r.
  - specialize (IH {| First.CancellationTokenSource._cancelled := c;
                      First.CancellationTokenSource._listeners := ls |}).
    by destruct (run (first_step bodies) ops _).
Qed.

End RunInvariants.

End Runs.

(** X11: in the second version the flag read through the token tells
    whether the source has been cancelled or disposed: after any sequence
    of operations on a new source, [token.isCancellationRequested] is
    [true] exactly when a [cancel()] or a [dispose()] is among them, and
    [false] otherwise, whenever the token was first asked for and whatever
    the listeners dispose. *)
Theorem second_flag_tells_cancellation (bodies : Bodies) (ops : list Api.Op) :
  snd (Api.second_step bodies Api.IsCancellationRequested
         (fst (Api.second_run bodies ops Second.CancellationTokenSource.create)))
  = [Api.Got (Js.Bool (existsb Api.is_cancelling ops))].
Proof.
  pose proof (wf_run bodies ops _ wf_create) as Hwf.
  destruct (second_step_view bodies Api.IsCancellationRequested _ Hwf) as [_ ->].
  destruct (second_run_view bodies ops _ wf_create) as [-> _].
  pose proof (view_run_flag bodies ops false []) as Hf.
  change (Api.second_view Second.CancellationTokenSource.create)
    with (false, @nil Listener).
  destruct (Api.run (Api.view_step bodies) ops (false, [])) as [[c ls] o].
  simpl in *. by rewrite Hf.
Qed.

(** X12: reading [source.token] has no effect that a client can see: the
    listener calls and the flag values observed over a sequence of
    operations are the same when the reads of [source.token] are taken out
    of it, in both versions.  In the second version the token and its
    emitter are made on first use, and that is not observable. *)
Theorem token_reads_unobservable (bodies : Bodies) (ops : list Api.Op) :
  snd (Api.first_run bodies ops First.CancellationTokenSource.create)
  = snd (Api.first_run bodies
           (filter (fun op => negb (Api.is_token_read op)) ops)
           First.CancellationTokenSource.create)
  /\ snd (Api.second_run bodies ops Second.CancellationTokenSource.create)
     = snd (Api.second_run bodies
              (filter (fun op => negb (Api.is_token_read op)) ops)
              Second.CancellationTokenSource.create).
Proof.
  split.
  - by rewrite <- first_run_without_token.
  - destruct (second_run_view bodies ops _ wf_create) as [_ ->].
    destruct (second_run_view bodies
                (filter (fun op => negb (Api.is_token_read op)) ops) _ wf_create)
      as [_ ->].
    by rewrite <- view_run_without_token.
Qed.

(** X13: over any sequence of operations on a new source, the listeners
    called are, in order, listeners that the sequence registers, one call
    at most for each registration: so the only listeners called are
    listeners registered, and when no listener is registered twice none
    is called twice.  This holds of both versions, whatever mix of
    registrations, disposals, [cancel()], [dispose()] and reads the
    sequence is and whatever the listeners dispose. *)
Theorem listeners_called_at_most_once (bodies : Bodies) (ops : list Api.Op) :
  let called1 :=
    Api.called (snd (Api.first_run bodies ops
                       First.CancellationTokenSource.create)) in
  let called2 :=
    Api.called (snd (Api.second_run bodies ops
                       Second.CancellationTokenSource.create)) in
  (called1 `sublist_of` Api.registered ops
   /\ called2 `sublist_of` Api.registered ops)
  /\ (forall l, l ∈ called1 \/ l ∈ called2 -> l ∈ Api.registered ops)
  /\ (NoDup (Api.registered ops) -> NoDup called1 /\ NoDup called2).
Proof.
  intros called1 called2.
  assert (called1 `sublist_of` Api.registered ops) as H1.
  { exact (first_called bodies ops First.CancellationTokenSource.create eq_refl). }
  assert (called2 `sublist_of` Api.registered ops) as H2.
  { subst called2.
    destruct (second_run_view bodies ops _ wf_create) as [_ ->].
    exact (view_called bodies ops []). }
  split_and!; try done.
  - intros l [Hl|Hl];
      [exact (sublist_subseteq _ _ H1 l Hl)|exact (sublist_subseteq _ _ H2 l Hl)].
  - intros Hnd.
    split; [exact (sublist_NoDup _ _ Hnd H1)|exact (sublist_NoDup _ _ Hnd H2)].
Qed.

Lemma listeners_called_at_most_once_witness :
  let bodies : Bodies := fun l => if bool_decide (l = 2) then [2; 3] else [] in
  let ops := [Api.OnCancellationRequested 1; Api.Dispose;
              Api.OnCancellationRequested 2; Api.OnCancellationRequested 4;
              Api.Cancel; Api.OnCancellationRequested 3; Api.Cancel] in
  NoDup (Api.called (snd (Api.first_run bodies ops
                            First.CancellationTokenSource.create)))
  /\ NoDup (Api.called (snd (Api.second_run bodies ops
                               Second.CancellationTokenSource.create))).
Proof.
  intros bodies ops.
  apply (proj2 (proj2 (listeners_called_at_most_once bodies ops))).
  apply (bool_decide_unpack _). vm_compute. exact I.
Defined.

(** X14: in the first version, once [cancel()] has been called the source
    holds no listener and never holds one again: whatever came before the
    [cancel()] and whatever is done afterwards, every listener attached
    afterwards is called at that moment, once per attachment, none is
    kept, and the source stays cancelled. *)
Theorem first_version_after_cancel (bodies : Bodies)
    (before after : list Api.Op) :
  let s := fst (Api.first_run bodies (before ++ [Api.Cancel])
                  First.CancellationTokenSource.create) in
  s = {| First.CancellationTokenSource._cancelled := true;
         First.CancellationTokenSource._listeners := [] |}
  /\ fst (Api.first_run bodies after s) = s
  /\ Api.called (snd (Api.first_run bodies after s)) = Api.registered after.
Proof.
  intros s.
  assert (s = {| First.CancellationTokenSource._cancelled := true;
                 First.CancellationTokenSource._listeners := [] |}) as Hs.
  { subst s. unfold Api.first_run. rewrite run_app.
    pose proof (first_inv_run bodies before First.CancellationTokenSource.create
                  ltac:(done)) as Hinv.
    unfold Api.first_run in Hinv.
    destruct (Api.run (Api.first_step bodies) before _) as [[c ls] o1].
    simpl in *.
    unfold First.CancellationTokenSource.cancel. simpl.
    destruct c; simpl; [|done].
    pose proof (Hinv eq_refl) as Hl. simpl in Hl. by subst. }
  rewrite Hs. destruct (first_cancelled_run bodies after) as [Hrun Hcalled].
  split_and!; try done. by rewrite Hrun.
Qed.

(** X15: what [dispose()] does to the listeners that wait on a source
    that is not cancelled.  The first version drops them: whatever is done
    afterwards, a listener that waited is not called unless it is
    attached anew.  The second version calls each of them, in order, as
    [cancel()] would. *)
Theorem dispose_and_waiting_listeners (bodies : Bodies)
    (s1 : First.CancellationTokenSource.t)
    (s2 : Second.CancellationTokenSource.t)
    (l : Listener) (ops : list Api.Op) :
  l ∈ First.CancellationTokenSource._listeners s1 ->
  l ∉ Api.registered ops ->
  Second.CancellationTokenSource.wf s2 ->
  Second.CancellationTokenSource._isCancelled s2 = false ->
  (l ∉ Api.called (snd (Api.first_run bodies (Api.Dispose :: ops) s1)))
  /\ snd (Api.second_step bodies Api.Dispose s2)
     = Api.Called <$> Second.CancellationTokenSource.listeners s2.
Proof.
  intros Hin Hnot Hwf Hc. split.
  - unfold Api.first_run. cbn [Api.run Api.first_step].
    pose proof (first_called_subset bodies ops
                  (First.CancellationTokenSource.dispose s1)) as Hsub.
    unfold Api.first_run in Hsub.
    destruct (Api.run (Api.first_step bodies) ops _) as [s' o]. simpl in *.
    intros Hl. by apply Hsub in Hl.
  - destruct (second_step_view bodies Api.Dispose s2 Hwf) as [_ ->].
    unfold Api.second_view. simpl. by rewrite Hc.
Qed.

Lemma dispose_and_waiting_listeners_witness :
  let bodies : Bodies := fun l => if bool_decide (l = 1) then [1] else [] in
  let s1 := {| First.CancellationTokenSource._cancelled := false;
               First.CancellationTokenSource._listeners := [1; 2] |} in
  let s2 := fst (Api.second_run bodies
                   [Api.OnCancellationRequested 1; Api.OnCancellationRequested 2]
                   Second.CancellationTokenSource.create) in
  (1 ∉ Api.called (snd (Api.first_run bodies
                          [Api.Dispose; Api.OnCancellationRequested 3; Api.Cancel] s1)))
  /\ snd (Api.second_step bodies Api.Dispose s2) = [Api.Called 1; Api.Called 2].
Proof.
  intros bodies s1 s2.
  apply (dispose_and_waiting_listeners bodies s1 s2 1
           [Api.OnCancellationRequested 3; Api.Cancel]).
  - apply (bool_decide_unpack _). vm_compute. exact I.
  - apply (bool_decide_unpack _). vm_compute. exact I.
  - vm_compute. reflexivity.
  - reflexivity.
Defined.

(** ** cli.ts: the command line *)

Section StartupFacts.

Import Startup.

Lemma break_at_format sep k v :
  occurs sep k = false -> break_at sep (k +:+ String sep v) = (k, Some v).
Proof.
  induction k as [|c k IH]; intros Hk.
  - change (break_at sep (String sep v) = (EmptyString, Some v)). simpl.
    by rewrite bool_decide_eq_true_2.
  - change (break_at sep (String c (k +:+ String sep v)) = (String c k, Some v)).
    simpl in *. apply orb_false_iff in Hk as [Hc Hk].
    rewrite Hc. by rewrite IH.
Qed.

Lemma break_at_inv sep s k v :
  break_at sep s = (k, Some v) -> s = k +:+ String sep v /\ occurs sep k = false.
Proof.
  revert k. induction s as [|c s IH]; intros k; simpl; [done|].
  case_bool_decide as Hc.
  - intros [= <- <-]. by subst.
  - destruct (break_at sep s) as [k' after]. intros [= <- ->].
    destruct (IH k' eq_refl) as [-> Hk]. split; [done|]. simpl.
    by rewrite (bool_decide_eq_false_2 (c = sep)).
Qed.

Lemma break_at_before sep s : occurs sep (fst (break_at sep s)) = false.
Proof.
  induction s as [|c s IH]; simpl; [done|].
  case_bool_decide as Hc; [done|].
  destruct (break_at sep s) as [k after]. simpl in *.
  by rewrite (bool_decide_eq_false_2 (c = sep)).
Qed.

Lemma break_at_no_sep sep s : occurs sep s = false -> break_at sep s = (s, None).
Proof.
  induction s as [|c s IH]; simpl; [done|]. intros H.
  apply orb_false_iff in H as [Hc Hs]. rewrite Hc, (IH Hs). done.
Qed.

(** An argument written as two dashes, a key, an equals sign and a value
    is read back as that key and value, and only such arguments match. *)
Lemma match_arg_format k v :
  k <> EmptyString -> occurs equals_sign k = false ->
  has_line_terminator v = false ->
  match_arg ("--" +:+ k +:+ String equals_sign v) = Some (k, v).
Proof.
  intros Hk He Hv.
  change (match_arg (String dash (String dash (k +:+ String equals_sign v)))
          = Some (k, v)).
  simpl. rewrite break_at_format by done.
  rewrite bool_decide_eq_false_2 by done. by rewrite Hv.
Qed.

Lemma match_arg_inv a k v :
  match_arg a = Some (k, v) ->
  a = "--" +:+ k +:+ String equals_sign v
  /\ k <> EmptyString /\ occurs equals_sign k = false
  /\ has_line_terminator v = false.
Proof.
  unfold match_arg. destruct a as [|c1 [|c2 rest]]; try done.
  destruct (bool_decide (c1 = dash)) eqn:E1; [|done].
  destruct (bool_decide (c2 = dash)) eqn:E2; [|done]. simpl.
  apply bool_decide_eq_true in E1, E2. subst.
  destruct (break_at equals_sign rest) as [key [value|]] eqn:Eb; [|done].
  case_bool_decide as Hkey; [done|].
  destruct (has_line_terminator value) eqn:Hlt; [done|].
  intros [= <- <-]. apply break_at_inv in Eb as [-> Hocc]. done.
Qed.

Lemma parse_fold_sound argv (m : gmap string string) k v :
  foldl parse_step m argv !! k = Some v ->
  m !! k = Some v
  \/ (k <> "__proto__"
      /\ exists a, a ∈ argv /\ match_arg a = Some (k, v)).
Proof.
  revert m. induction argv as [|a argv IH]; intros m; simpl; [by left|].
  intros H. apply IH in H as [H|(Hp & a' & Hin & Ha')];
    [|right; split; [done|]; exists a'; split; [by right|done]].
  unfold parse_step in H. destruct (match_arg a) as [[key value]|] eqn:Ea;
    [|by left].
  unfold assign in H. case_bool_decide as Hproto; [by left|].
  destruct (decide (key = k)) as [->|Hne].
  - rewrite lookup_insert_eq in H. injection H as ->.
    right. split; [done|]. exists a. split; [by left|done].
  - rewrite lookup_insert_ne in H by done. by left.
Qed.

Lemma parse_fold_keeps argv (m : gmap string string) k :
  Forall (fun a => fst <$> match_arg a <> Some k) argv ->
  foldl parse_step m argv !! k = m !! k.
Proof.
  revert m. induction argv as [|a argv IH]; intros m Hall; simpl; [done|].
  apply Forall_cons in Hall as [Ha Hall]. rewrite IH by done.
  unfold parse_step. destruct (match_arg a) as [[key value]|]; [|done].
  unfold assign. case_bool_decide; [done|].
  apply lookup_insert_ne. intros ->. by apply Ha.
Qed.

End StartupFacts.

(** X16: [parseArgs] reads an argument written as two dashes, a key, an
    equals sign and a value: the key is bound to the value when the key is
    not empty, holds no equals sign and is not [__proto__], the value
    holds no line terminator (it may hold equals signs), and no later
    argument sets the same key.  Of two arguments for one key the later
    one wins; arguments of any other shape are passed over. *)
Theorem parseArgs_reads_key_value (before after : list string) (k v : string) :
  k <> EmptyString ->
  k <> "__proto__" ->
  Startup.occurs Startup.equals_sign k = false ->
  Startup.has_line_terminator v = false ->
  Forall (fun a => fst <$> Startup.match_arg a <> Some k) after ->
  Startup.parseArgs
    (before ++ ("--" +:+ k +:+ String Startup.equals_sign v) :: after) !! k
  = Some v.
Proof.
  intros Hk Hproto Heq Hv Hafter. unfold Startup.parseArgs.
  rewrite foldl_app. simpl. rewrite parse_fold_keeps by done.
  unfold Startup.parse_step. rewrite match_arg_format by done.
  unfold Startup.assign. rewrite bool_decide_eq_false_2 by done.
  apply lookup_insert_eq.
Qed.

Lemma parseArgs_reads_key_value_witness :
  Startup.parseArgs
    ["--verbose"; "--listen=localhost:1"; "--listen=127.0.0.1:3000";
     "state=/x"; "--state=/tmp/a=b"] !! "listen"
  = Some "127.0.0.1:3000".
Proof.
  apply (parseArgs_reads_key_value ["--verbose"; "--listen=localhost:1"]
           ["state=/x"; "--state=/tmp/a=b"] "listen" "127.0.0.1:3000");
    try discriminate; try reflexivity.
  apply (bool_decide_unpack _). vm_compute. exact I.
Defined.

(** X17: [parseArgs] invents nothing: a key is bound to a value only when
    the command line holds the argument made of two dashes, that key, an
    equals sign and that value; the key is then not empty and is not
    [__proto__]. *)
Theorem parseArgs_sound (argv : list string) (k v : string) :
  Startup.parseArgs argv !! k = Some v ->
  ("--" +:+ k +:+ String Startup.equals_sign v) ∈ argv
  /\ k <> EmptyString
  /\ k <> "__proto__".
Proof.
  intros H. unfold Startup.parseArgs in H.
  apply parse_fold_sound in H as [H|(Hp & a & Hin & Ha)];
    [by rewrite lookup_empty in H|].
  apply match_arg_inv in Ha as (-> & Hk & _). done.
Qed.

Lemma parseArgs_sound_witness :
  "--state=/tmp/a=b" ∈ ["--verbose"; "--state=/tmp/a=b"]
  /\ "state" <> EmptyString
  /\ "state" <> "__proto__".
Proof.
  exact (parseArgs_sound ["--verbose"; "--state=/tmp/a=b"] "state" "/tmp/a=b"
           eq_refl).
Defined.

(** X18: [main] goes on to [server.listen] only with checked input: both
    [--listen] and [--state] were given with non-empty values; the host is
    the text of the [--listen] value before its first colon, is not empty
    and holds no colon; the port is what [parseInt] makes of the text
    between the first colon and the second (anything after a second colon
    is not looked at) and is not zero.  A [--listen] value without a colon
    is therefore always refused. *)
Theorem main_listens_on_checked_input (parseInt : string -> Startup.Parsed)
    (argv : list string) (host : string) (port : Z) (state : string) :
  Startup.main parseInt argv = Startup.Listen host port state ->
  host <> EmptyString
  /\ Startup.occurs Startup.colon host = false
  /\ port <> 0%Z
  /\ state <> EmptyString
  /\ Startup.parseArgs argv !! "state" = Some state
  /\ exists rest,
       Startup.parseArgs argv !! "listen"
         = Some (host +:+ String Startup.colon rest)
       /\ parseInt (fst (Startup.break_at Startup.colon rest)) = Startup.Int port.
Proof.
  unfold Startup.main.
  destruct (Startup.parseArgs argv !! "listen") as [listen|] eqn:El; [|done].
  destruct (Startup.parseArgs argv !! "state") as [st|] eqn:Es;
    [|by rewrite orb_true_r].
  unfold Startup.absent at 2.
  destruct (bool_decide (st = EmptyString)) eqn:Est; [by rewrite orb_true_r|].
  destruct (Startup.absent _); [done|]. simpl.
  unfold Startup.split_host_port.
  destruct (Startup.break_at Startup.colon listen) as [h after] eqn:Eb.
  pose proof (break_at_before Startup.colon listen) as Hocc.
  rewrite Eb in Hocc. simpl in Hocc.
  destruct after as [rest|]; simpl; [|done].
  destruct (parseInt _) as [|z] eqn:Ep; [done|].
  destruct (bool_decide (h = EmptyString)) eqn:Eh; [done|]. simpl.
  destruct (bool_decide (z = 0%Z)) eqn:Ez; [done|].
  intros [= <- <- <-].
  apply bool_decide_eq_false in Est, Eh, Ez.
  apply break_at_inv in Eb as [-> _].
  split_and!; try done. by exists rest.
Qed.

Lemma main_listens_on_checked_input_witness :
  let parseInt := fun s =>
    match Example.leading_digits s None with
    | Some n => Startup.Int (Z.of_N n)
    | None => Startup.NaN
    end in
  Startup.main parseInt ["--listen=localhost:3000:junk"; "--state=/tmp/state"]
    = Startup.Listen "localhost" 3000 "/tmp/state"
  /\ Startup.occurs Startup.colon "localhost" = false.
Proof.
  intros parseInt. split; [reflexivity|].
  exact (proj1 (proj2 (main_listens_on_checked_input parseInt
           ["--listen=localhost:3000:junk"; "--state=/tmp/state"]
           "localhost" 3000 "/tmp/state" eq_refl))).
Defined.

(** X19: the request handler calls the session manager for two requests
    only: a POST to [/launch-and-attach] and a POST to [/kill], each with
    a body that parses.  Every other request leaves the manager as it is:
    OPTIONS is answered 200 with an empty body; any other method than
    POST, GET included, is answered 405; a POST to another url (a query
    string or a trailing slash makes it another url) is answered 404; a
    POST whose body does not parse is answered 500 with the message of the
    error. *)
Theorem handler_calls_manager_only_for_routes {Manager : Type}
    (create : Spawn.ILaunchParams.t -> Manager -> Manager * option Http.Thrown)
    (destroy : Z -> Manager -> Manager * option Http.Thrown)
    (parse_params : string -> Http.Thrown + Spawn.ILaunchParams.t)
    (parse_launchId : string -> Http.Thrown + Z)
    (method url body : string) (manager : Manager) :
  let reply := Http.handle create destroy parse_params parse_launchId
                 method url body manager in
  (method = "OPTIONS" ->
   reply = (manager, {| Http.code := 200; Http.headers := Http.cors;
                        Http.content := Http.Empty |}))
  /\ (method <> "OPTIONS" -> method <> "POST" ->
      fst reply = manager /\ Http.code (snd reply) = 405%Z)
  /\ (method = "POST" -> url <> "/launch-and-attach" -> url <> "/kill" ->
      fst reply = manager /\ Http.code (snd reply) = 404%Z)
  /\ (method = "POST" -> url = "/launch-and-attach" ->
      forall t, parse_params body = inl t ->
      reply = (manager, Http.failed t))
  /\ (method = "POST" -> url = "/kill" ->
      forall t, parse_launchId body = inl t ->
      reply = (manager, Http.failed t)).
Proof.
  intros reply. subst reply. unfold Http.handle. split_and!.
  - by intros ->.
  - intros H1 H2.
    rewrite (bool_decide_eq_false_2 (method = "OPTIONS")) by done.
    by rewrite (bool_decide_eq_false_2 (method = "POST")) by done.
  - intros -> H1 H2.
    rewrite (bool_decide_eq_false_2 ("POST" = "OPTIONS")) by done.
    rewrite (bool_decide_eq_true_2 ("POST" = "POST")) by done.
    rewrite (bool_decide_eq_false_2 (url = "/launch-and-attach")) by done.
    by rewrite (bool_decide_eq_false_2 (url = "/kill")) by done.
  - intros -> -> t Ht.
    rewrite (bool_decide_eq_false_2 ("POST" = "OPTIONS")) by done.
    rewrite (bool_decide_eq_true_2 ("POST" = "POST")) by done.
    rewrite (bool_decide_eq_true_2 (_ = "/launch-and-attach")) by done.
    by rewrite Ht.
  - intros -> -> t Ht.
    rewrite (bool_decide_eq_false_2 ("POST" = "OPTIONS")) by done.
    rewrite (bool_decide_eq_true_2 ("POST" = "POST")) by done.
    rewrite (bool_decide_eq_false_2 (_ = "/launch-and-attach")) by done.
    rewrite (bool_decide_eq_true_2 (_ = "/kill")) by done.
    by rewrite Ht.
Qed.

Lemma handler_calls_manager_only_for_routes_witness :
  let create := fun (_ : Spawn.ILaunchParams.t) (m : nat) => (S m, @None Http.Thrown) in
  let destroy := fun (_ : Z) (m : nat) => (pred m, @None Http.Thrown) in
  let parse_params := fun _ : string =>
    inl (Http.ErrorInstance "Unexpected end of JSON input")
      : Http.Thrown + Spawn.ILaunchParams.t in
  let parse_launchId := fun _ : string => inr 7%Z : Http.Thrown + Z in
  fst (Http.handle create destroy parse_params parse_launchId
         "GET" "/kill" "{}" 3) = 3
  /\ Http.code (snd (Http.handle create destroy parse_params parse_launchId
                       "GET" "/kill" "{}" 3)) = 405%Z.
Proof.
  intros create destroy parse_params parse_launchId.
  apply (handler_calls_manager_only_for_routes create destroy parse_params
           parse_launchId "GET" "/kill" "{}" 3); discriminate.
Defined.
